(** * OpenAnalyst proxy: the translation engine

    A shallow embedding of the translators of [openanalyst-proxy]
    (request-translator.ts, response-translator.ts and the streaming
    handler of server.ts) and the properties of the specification that
    they settle.

    Conventions of the embedding:
    - a TypeScript interface is a record, a union of string literals an
      inductive type with a [*_text] function giving the literal;
    - an optional property [p?: T] is an [option T]: [None] is what a read
      of the property returns when it is [undefined];
    - a function that mutates its [state] argument returns the new state
      next to its result;
    - a function that may [throw] returns a [result];
    - [Math.random] and [Date.now] are read from an explicit environment. *)

From stdpp Require Import base option list strings gmap.
From Stdlib Require Import Ascii ZArith QArith.

Set Warnings "-register-all".
Set Default Proof Using "Type".

Local Open Scope Z_scope.

(** ** JavaScript values *)

Module Js.

(** A value as [JSON.parse] or a missing property can produce it. *)
Inductive jsval :=
| JUndefined
| JNull
| JBool (b : bool)
| JNum (n : Q)
| JStr (s : string)
| JArr (items : list jsval)
| JObj (fields : gmap string jsval).

(** [typeof v] *)
Definition typeof (v : jsval) : string :=
  match v with
  | JUndefined => "undefined"
  | JNull => "object"
  | JBool _ => "boolean"
  | JNum _ => "number"
  | JStr _ => "string"
  | JArr _ => "object"
  | JObj _ => "object"
  end.

(** Truthiness of a string: the empty string is the only falsy one. *)
Definition truthy_string (s : string) : bool := bool_decide (s ≠ EmptyString).

(** [!!v] *)
Definition truthy (v : jsval) : bool :=
  match v with
  | JUndefined | JNull => false
  | JBool b => b
  | JNum n => negb (Qeq_bool n 0)
  | JStr s => truthy_string s
  | JArr _ | JObj _ => true
  end.

(** [Array.isArray(v)] *)
Definition isArray (v : jsval) : bool :=
  match v with JArr _ => true | _ => false end.

(** [v[key]] for a property name that is not an array index: an own
    property of an object, [undefined] everywhere else. *)
Definition get (v : jsval) (key : string) : jsval :=
  match v with
  | JObj fields => default JUndefined (fields !! key)
  | _ => JUndefined
  end.

(** [a || b] on optional strings: [a] when it is a non-empty string. *)
Definition or_string (a : option string) (b : string) : string :=
  match a with
  | Some s => if truthy_string s then s else b
  | None => b
  end.

(** [n || 0] on an optional number. *)
Definition or_zero (n : option Z) : Z :=
  match n with
  | Some k => if bool_decide (k ≠ 0) then k else 0
  | None => 0
  end.

(** What a [catch] clause can receive. [ErrorInstance] is a value for
    which [instanceof Error] holds; the client throws the parsed body of
    a non-2xx answer as a plain object, which is [ApiErrorObject] when it
    has the declared [OpenRouterError] shape; [OtherThrown] is any value
    without an [error] property. *)
Record OpenRouterErrorBody := {
  oe_message : string;
  oe_type : string;
  oe_code : option string;
  oe_param : option string;
}.

Inductive thrown :=
| ErrorInstance (message : string)
| ApiErrorObject (error : OpenRouterErrorBody)
| OtherThrown.

Inductive result (A : Type) :=
| Ok (a : A)
| Throw (e : thrown).
Global Arguments Ok {A} a.
Global Arguments Throw {A} e.

(** The sources of nondeterminism: [entropy k] is the text
    [Date.now().toString(36) + Math.random().toString(36).substring(2, 15)]
    drawn by the [k]-th call of [generateId], [seconds k] the [k]-th
    reading of [Math.floor(Date.now() / 1000)]. *)
Record Env := {
  entropy : nat → string;
  seconds : nat → Z;
}.

End Js.
Import Js.

(** ** types/chat-completions.ts *)

Module ChatCompletions.

Inductive ChatRole := System | User | Assistant | Tool.

Inductive ContentPartType := PartText | PartImageUrl.

Inductive ImageDetail := DetailAuto | DetailLow | DetailHigh.

Record ImageUrl := {
  iu_url : string;
  iu_detail : option ImageDetail;
}.

Record ChatContentPart := {
  cp_type : ContentPartType;
  cp_text : option string;
  cp_image_url : option ImageUrl;
}.

(** [string | ChatContentPart[] | null] *)
Inductive ChatContent :=
| ContentString (s : string)
| ContentParts (parts : list ChatContentPart)
| ContentNull.

(** The translators build and read [role] and [content] only; the
    tool-call properties are never touched and are left out. *)
Record ChatMessage := {
  cm_role : ChatRole;
  cm_content : ChatContent;
}.

Record ChatFunction := {
  cf_name : string;
  cf_description : option string;
  cf_parameters : option jsval;
}.

(** [type] is the constant ["function"]. *)
Record ChatTool := {
  ct_function : ChatFunction;
}.

Inductive ToolChoice :=
| ChoiceAuto
| ChoiceNone
| ChoiceRequired
| ChoiceFunction (name : string).

(** An own property of an object under construction: never assigned,
    assigned [undefined], or assigned a value. *)
Inductive property (A : Type) :=
| Unset
| SetUndefined
| SetTo (a : A).
Global Arguments Unset {A}.
Global Arguments SetUndefined {A}.
Global Arguments SetTo {A} a.

(** What a read of the property returns, and what
    [JSON.stringify({...request})], through which the client sends the
    request, keeps of it: a property holding [undefined] is dropped like
    one that was never assigned. *)
Definition sent {A} (p : property A) : option A :=
  match p with
  | Unset | SetUndefined => None
  | SetTo a => Some a
  end.

(** The properties [translateRequest] assigns. *)
Record ChatCompletionsRequest := {
  cr_model : string;
  cr_messages : list ChatMessage;
  cr_temperature : option Q;
  cr_max_tokens : option Z;
  cr_top_p : option Q;
  cr_stream : option bool;
  cr_tools : property (list ChatTool);
  cr_tool_choice : option ToolChoice;
}.

Inductive FinishReason := Stop | Length | ToolCalls | ContentFilter.

Definition finish_reason_text (r : FinishReason) : string :=
  match r with
  | Stop => "stop"
  | Length => "length"
  | ToolCalls => "tool_calls"
  | ContentFilter => "content_filter"
  end.

Record ChatChoice := {
  cc_index : Z;
  cc_message : ChatMessage;
  cc_finish_reason : option FinishReason;
}.

(** The counters are read as [usage?.x || 0], so both the record and
    each counter may be missing. *)
Record ChatUsage := {
  prompt_tokens : option Z;
  completion_tokens : option Z;
  cu_total_tokens : option Z;
}.

Record ChatCompletionsResponse := {
  cres_id : string;
  cres_created : Z;
  cres_model : string;
  cres_choices : list ChatChoice;
  cres_usage : option ChatUsage;
}.

(** [role] and [tool_calls] of a delta are never read. *)
Record ChatDelta := {
  delta_content : option string;
}.

Record ChatStreamChoice := {
  sc_index : Z;
  sc_delta : ChatDelta;
  sc_finish_reason : option FinishReason;
}.

Record ChatStreamChunk := {
  chunk_id : string;
  chunk_created : Z;
  chunk_model : string;
  choices : list ChatStreamChoice;
}.

End ChatCompletions.
Import ChatCompletions.

(** ** types/responses-api.ts *)

Module ResponsesApi.

Inductive InputRole := RoleUser | RoleAssistant | RoleSystem.

Inductive InputPartType := InputText | InputImage.

Record ResponsesContentPart := {
  ip_type : InputPartType;
  ip_text : option string;
  ip_image_url : option string;
}.

Inductive InputContent :=
| InputContentString (s : string)
| InputContentParts (parts : list ResponsesContentPart).

Record ResponsesInputMessage := {
  im_role : InputRole;
  im_content : InputContent;
}.

Inductive ToolType := ToolFunction | WebSearchPreview | FileSearch | CodeInterpreter.

Definition tool_type_text (t : ToolType) : string :=
  match t with
  | ToolFunction => "function"
  | WebSearchPreview => "web_search_preview"
  | FileSearch => "file_search"
  | CodeInterpreter => "code_interpreter"
  end.

Record ResponsesTool := {
  rt_type : ToolType;
  rt_function : option ChatFunction;
}.

(** [string | ResponsesInputMessage[]] *)
Inductive RequestInput :=
| InputString (s : string)
| InputMessages (msgs : list ResponsesInputMessage).

(** [store], [previous_response_id] and [metadata] are never read. *)
Record ResponsesAPIRequest := {
  rq_model : string;
  rq_input : RequestInput;
  rq_instructions : option string;
  rq_temperature : option Q;
  rq_max_output_tokens : option Z;
  rq_top_p : option Q;
  rq_tools : option (list ResponsesTool);
  rq_tool_choice : option ToolChoice;
  rq_stream : option bool;
}.

(** [type] is the constant ["output_text"]. *)
Record ResponsesOutputText := {
  ot_text : string;
}.

(** [type] is ["message"] and [role] is ["assistant"]. *)
Record ResponsesOutputMessage := {
  om_id : string;
  om_content : list ResponsesOutputText;
}.

Record ResponsesUsage := {
  input_tokens : Z;
  output_tokens : Z;
  total_tokens : Z;
}.

Inductive Status := Completed | Failed | InProgress | Cancelled.

Record ErrorInfo := {
  err_code : string;
  err_message : string;
}.

(** The source comments the [error] property with the words:
    Error info if status is "failed". *)
Record ResponsesAPIResponse := {
  id : string;
  created_at : Z;
  resp_model : string;
  status : Status;
  output : list ResponsesOutputMessage;
  usage : ResponsesUsage;
  error : option ErrorInfo;
}.

Inductive ItemStatus := ItemInProgress | ItemCompleted.

Record ResponsesOutputItem := {
  item_id : string;
  item_content : list ResponsesOutputText;
  item_status : option ItemStatus;
}.

(** [ResponsesStreamEvent] is one interface with a [type] tag and optional
    payloads; every event the code builds has one of these shapes. *)
Inductive ResponsesStreamEvent :=
| response_created (response : ResponsesAPIResponse)
| response_in_progress (response : ResponsesAPIResponse)
| response_output_item_added (output_index : Z) (item : ResponsesOutputItem)
| response_content_part_added (output_index content_index : Z) (part : ResponsesOutputText)
| response_output_text_delta (output_index content_index : Z) (delta : string)
| response_output_text_done (output_index content_index : Z) (text : string)
| response_content_part_done (output_index content_index : Z) (part : ResponsesOutputText)
| response_output_item_done (output_index : Z) (item : ResponsesOutputItem)
| response_completed (response : ResponsesAPIResponse)
| response_done (response : ResponsesAPIResponse)
| error_event (info : ErrorInfo).

(** [event.type] *)
Definition event_type (e : ResponsesStreamEvent) : string :=
  match e with
  | response_created _ => "response.created"
  | response_in_progress _ => "response.in_progress"
  | response_output_item_added _ _ => "response.output_item.added"
  | response_content_part_added _ _ _ => "response.content_part.added"
  | response_output_text_delta _ _ _ => "response.output_text.delta"
  | response_output_text_done _ _ _ => "response.output_text.done"
  | response_content_part_done _ _ _ => "response.content_part.done"
  | response_output_item_done _ _ => "response.output_item.done"
  | response_completed _ => "response.completed"
  | response_done _ => "response.done"
  | error_event _ => "error"
  end.

End ResponsesApi.
Import ResponsesApi.

(** ** translators/response-translator.ts *)

Module ResponseTranslator.

Definition generateId (env : Env) (call : nat) (prefix : string) : string :=
  prefix +:+ "_" +:+ entropy env call.

(** [s.split("/")] *)
Fixpoint split_slash (s : string) : list string :=
  match s with
  | EmptyString => [EmptyString]
  | String c rest =>
      if bool_decide (c = "/"%char) then EmptyString :: split_slash rest
      else match split_slash rest with
           | first :: others => String c first :: others
           | [] => [String c EmptyString]
           end
  end.

(** [s.includes("/")] *)
Definition includes_slash (s : string) : bool :=
  bool_decide (is_Some (String.index 0 "/" s)).

Definition normalizeModelName (model : string) : string :=
  if includes_slash model
  then or_string (last (split_slash model)) model
  else model.

Definition mapFinishReasonToStatus (finishReason : option string) : Status :=
  match finishReason with
  | Some reason =>
      if bool_decide (reason = "stop") then Completed
      else if bool_decide (reason = "length") then Completed
      else if bool_decide (reason = "tool_calls") then Completed
      else if bool_decide (reason = "content_filter") then Failed
      else Completed
  | None => Completed
  end.

(** [JSON.stringify] is a parameter wherever it is called. *)
Definition translateResponse
    (JSON_stringify : list ChatContentPart → string) (env : Env)
    (chatResponse : ChatCompletionsResponse) (originalModel : option string)
  : result ResponsesAPIResponse :=
  match cres_choices chatResponse !! 0%nat with
  | None => Throw (ErrorInstance "No choices in response from OpenRouter")
  | Some choice =>
      let text :=
        match cm_content (cc_message choice) with
        | ContentString s => s
        | ContentParts parts => JSON_stringify parts
        | ContentNull => EmptyString
        end in
      let outputMessage :=
        {| om_id := generateId env 0 "msg";
           om_content := [ {| ot_text := text |} ] |} in
      Ok {| id := generateId env 1 "resp";
            created_at := cres_created chatResponse;
            resp_model :=
              or_string originalModel (normalizeModelName (cres_model chatResponse));
            status :=
              mapFinishReasonToStatus (finish_reason_text <$> cc_finish_reason choice);
            output := [outputMessage];
            usage :=
              {| input_tokens := or_zero (cres_usage chatResponse ≫= prompt_tokens);
                 output_tokens := or_zero (cres_usage chatResponse ≫= completion_tokens);
                 total_tokens := or_zero (cres_usage chatResponse ≫= cu_total_tokens) |};
            error := None |}
  end.

Definition translateError (env : Env) (error : thrown) : ResponsesAPIResponse :=
  let '(errorMessage, errorCode) :=
    match error with
    | ErrorInstance message => (message, "internal_error")
    | ApiErrorObject body =>
        (oe_message body,
         or_string (oe_code body) (or_string (Some (oe_type body)) "api_error"))
    | OtherThrown => ("Unknown error occurred", "internal_error")
    end in
  {| id := generateId env 0 "resp";
     created_at := seconds env 0;
     resp_model := "unknown";
     status := Failed;
     output := [];
     usage := {| input_tokens := 0; output_tokens := 0; total_tokens := 0 |};
     error := Some {| err_code := errorCode; err_message := errorMessage |} |}.

(** *** Streaming *)

Record StreamState := {
  responseId : string;
  messageId : string;
  contentPartId : string;
  model : string;
  createdAt : Z;
  accumulatedText : string;
  inputTokens : Z;
  outputTokens : Z;
  hasStartedOutput : bool;
  hasAddedContentPart : bool;
}.

Definition createStreamState (env : Env) (model : string) : StreamState :=
  {| responseId := generateId env 0 "resp";
     messageId := generateId env 1 "msg";
     contentPartId := generateId env 2 "cp";
     model := model;
     createdAt := seconds env 0;
     accumulatedText := EmptyString;
     inputTokens := 0;
     outputTokens := 0;
     hasStartedOutput := false;
     hasAddedContentPart := false |}.

(** The three assignments to [state]. *)
Definition set_hasStartedOutput (b : bool) (state : StreamState) : StreamState :=
  {| responseId := responseId state; messageId := messageId state;
     contentPartId := contentPartId state; model := model state;
     createdAt := createdAt state; accumulatedText := accumulatedText state;
     inputTokens := inputTokens state; outputTokens := outputTokens state;
     hasStartedOutput := b;
     hasAddedContentPart := hasAddedContentPart state |}.

Definition set_hasAddedContentPart (b : bool) (state : StreamState) : StreamState :=
  {| responseId := responseId state; messageId := messageId state;
     contentPartId := contentPartId state; model := model state;
     createdAt := createdAt state; accumulatedText := accumulatedText state;
     inputTokens := inputTokens state; outputTokens := outputTokens state;
     hasStartedOutput := hasStartedOutput state;
     hasAddedContentPart := b |}.

Definition set_accumulatedText (text : string) (state : StreamState) : StreamState :=
  {| responseId := responseId state; messageId := messageId state;
     contentPartId := contentPartId state; model := model state;
     createdAt := createdAt state; accumulatedText := text;
     inputTokens := inputTokens state; outputTokens := outputTokens state;
     hasStartedOutput := hasStartedOutput state;
     hasAddedContentPart := hasAddedContentPart state |}.

(** The [response.output_item.added] and [response.content_part.added]
    events, pushed at two places of [translateStreamChunk]. *)
Definition outputItemAdded (state : StreamState) : ResponsesStreamEvent :=
  response_output_item_added 0
    {| item_id := messageId state; item_content := [];
       item_status := Some ItemInProgress |}.

Definition contentPartAdded : ResponsesStreamEvent :=
  response_content_part_added 0 0 {| ot_text := EmptyString |}.

(** The block under [if (choice.delta.content)]. *)
Definition onContentDelta (choice : ChatStreamChoice)
    (events : list ResponsesStreamEvent) (state : StreamState)
  : list ResponsesStreamEvent * StreamState :=
  match delta_content (sc_delta choice) with
  | Some content =>
      if truthy_string content then
        let '(events, state) :=
          if negb (hasStartedOutput state) then
            let state := set_hasStartedOutput true state in
            let events := events ++ [outputItemAdded state] in
            let events := events ++ [contentPartAdded] in
            (events, set_hasAddedContentPart true state)
          else (events, state) in
        let state := set_accumulatedText (accumulatedText state +:+ content) state in
        (events ++ [response_output_text_delta 0 0 content], state)
      else (events, state)
  | None => (events, state)
  end.

(** The block under [if (choice.finish_reason)]; each of the four
    literals a finish reason can be is a non-empty string. *)
Definition onFinishReason (choice : ChatStreamChoice)
    (events : list ResponsesStreamEvent) (state : StreamState)
  : list ResponsesStreamEvent * StreamState :=
  match sc_finish_reason choice with
  | Some finish_reason =>
      let '(events, state) :=
        if negb (hasStartedOutput state) then
          let state := set_hasStartedOutput true state in
          let events := events ++ [outputItemAdded state] in
          (events ++ [contentPartAdded], state)
        else (events, state) in
      let events :=
        events ++ [response_output_text_done 0 0 (accumulatedText state)] in
      let events :=
        events ++ [response_content_part_done 0 0 {| ot_text := accumulatedText state |}] in
      let events :=
        events ++ [response_output_item_done 0
                     {| item_id := messageId state;
                        item_content := [ {| ot_text := accumulatedText state |} ];
                        item_status := Some ItemCompleted |}] in
      let finalResponse :=
        {| id := responseId state;
           created_at := createdAt state;
           resp_model := model state;
           status := mapFinishReasonToStatus (Some (finish_reason_text finish_reason));
           output :=
             [ {| om_id := messageId state;
                  om_content := [ {| ot_text := accumulatedText state |} ] |} ];
           usage :=
             {| input_tokens := inputTokens state;
                output_tokens := outputTokens state;
                total_tokens := inputTokens state + outputTokens state |};
           error := None |} in
      let events := events ++ [response_completed finalResponse] in
      (events ++ [response_done finalResponse], state)
  | None => (events, state)
  end.

Definition translateStreamChunk (chunk : ChatStreamChunk) (state : StreamState)
  : list ResponsesStreamEvent * StreamState :=
  let events := [] in
  match choices chunk !! 0%nat with
  | None => (events, state)
  | Some choice =>
      let '(events, state) := onContentDelta choice events state in
      onFinishReason choice events state
  end.

Definition inProgressResponse (state : StreamState) : ResponsesAPIResponse :=
  {| id := responseId state;
     created_at := createdAt state;
     resp_model := model state;
     status := InProgress;
     output := [];
     usage := {| input_tokens := 0; output_tokens := 0; total_tokens := 0 |};
     error := None |}.

Definition createResponseCreatedEvent (state : StreamState) : ResponsesStreamEvent :=
  response_created (inProgressResponse state).

Definition createResponseInProgressEvent (state : StreamState) : ResponsesStreamEvent :=
  response_in_progress (inProgressResponse state).

Definition newline : string := String (Ascii.ascii_of_nat 10) EmptyString.

Definition formatSSE (JSON_stringify : ResponsesStreamEvent → string)
    (event : ResponsesStreamEvent) : string :=
  "event: " +:+ event_type event +:+ newline
    +:+ "data: " +:+ JSON_stringify event +:+ newline +:+ newline.

End ResponseTranslator.
Import ResponseTranslator.

(** ** translators/request-translator.ts

    Console logging (the warnings for an unknown model and for unsupported
    tools) has no effect on the values returned and is not modelled. *)

Module RequestTranslator.

Definition MODEL_MAP : gmap string string :=
  list_to_map
    [ ("gpt-4o", "openai/gpt-4o");
      ("gpt-4o-mini", "openai/gpt-4o-mini");
      ("gpt-4-turbo", "openai/gpt-4-turbo");
      ("gpt-4", "openai/gpt-4");
      ("gpt-3.5-turbo", "openai/gpt-3.5-turbo");
      ("o1", "openai/o1");
      ("o1-mini", "openai/o1-mini");
      ("o1-preview", "openai/o1-preview");
      ("o3-mini", "openai/o3-mini");
      ("claude-3-5-sonnet", "anthropic/claude-3.5-sonnet");
      ("claude-3.5-sonnet", "anthropic/claude-3.5-sonnet");
      ("claude-3-opus", "anthropic/claude-3-opus");
      ("claude-3-sonnet", "anthropic/claude-3-sonnet");
      ("claude-3-haiku", "anthropic/claude-3-haiku");
      ("llama-3.1-70b", "meta-llama/llama-3.1-70b-instruct");
      ("llama-3.1-8b", "meta-llama/llama-3.1-8b-instruct");
      ("llama-3.2-90b", "meta-llama/llama-3.2-90b-vision-instruct");
      ("gemini-pro", "google/gemini-pro");
      ("gemini-1.5-pro", "google/gemini-pro-1.5");
      ("gemini-1.5-flash", "google/gemini-flash-1.5");
      ("mistral-large", "mistralai/mistral-large");
      ("mistral-medium", "mistralai/mistral-medium");
      ("mixtral-8x7b", "mistralai/mixtral-8x7b-instruct") ].

(** [toLowerCase] on the ASCII letters; a model name is taken to be
    ASCII text, and only own properties of the table are looked up. *)
Definition lower_ascii (c : ascii) : ascii :=
  let n := nat_of_ascii c in
  if ((65 <=? n) && (n <=? 90))%nat then ascii_of_nat (n + 32) else c.

Fixpoint toLowerCase (s : string) : string :=
  match s with
  | EmptyString => EmptyString
  | String c rest => String (lower_ascii c) (toLowerCase rest)
  end.

Definition mapModelName (model : string) : string :=
  if includes_slash model then model
  else match MODEL_MAP !! toLowerCase model with
       | Some mapped => if truthy_string mapped then mapped else "openai/" +:+ model
       | None => "openai/" +:+ model
       end.

Definition convertPart (part : ResponsesContentPart) : option ChatContentPart :=
  match ip_type part, ip_text part, ip_image_url part with
  | InputText, Some text, _ =>
      if truthy_string text
      then Some {| cp_type := PartText; cp_text := Some text; cp_image_url := None |}
      else None
  | InputImage, _, Some image_url =>
      if truthy_string image_url
      then Some {| cp_type := PartImageUrl; cp_text := None;
                   cp_image_url := Some {| iu_url := image_url; iu_detail := None |} |}
      else None
  | _, _, _ => None
  end.

Definition convertContent (content : InputContent) : ChatContent :=
  match content with
  | InputContentString s => ContentString s
  | InputContentParts parts => ContentParts (omap convertPart parts)
  end.

Definition chatRole (role : InputRole) : ChatRole :=
  match role with
  | RoleUser => User
  | RoleAssistant => Assistant
  | RoleSystem => System
  end.

Definition convertInputToMessages (input : RequestInput) (instructions : option string)
  : list ChatMessage :=
  let messages := [] in
  let messages :=
    match instructions with
    | Some text =>
        if truthy_string text
        then messages ++ [ {| cm_role := System; cm_content := ContentString text |} ]
        else messages
    | None => messages
    end in
  match input with
  | InputString s =>
      messages ++ [ {| cm_role := User; cm_content := ContentString s |} ]
  | InputMessages msgs =>
      messages ++
        ((λ msg, {| cm_role := chatRole (im_role msg);
                    cm_content := convertContent (im_content msg) |}) <$> msgs)
  end.

(** [t.type === "function" && t.function] *)
Definition isFunctionTool (t : ResponsesTool) : bool :=
  bool_decide (tool_type_text (rt_type t) = "function") && bool_decide (is_Some (rt_function t)).

(** The [map] callback of [convertTools]; it runs on tools that passed
    [isFunctionTool], whose [function] is present. *)
Definition convertTool (t : ResponsesTool) : option ChatTool :=
  match rt_function t with
  | Some f =>
      Some {| ct_function :=
                {| cf_name := cf_name f;
                   cf_description := cf_description f;
                   cf_parameters := cf_parameters f |} |}
  | None => None
  end.

(** [undefined] is [None]. *)
Definition convertTools (tools : list ResponsesTool) : option (list ChatTool) :=
  let functionTools := List.filter isFunctionTool tools in
  if bool_decide (length functionTools = 0%nat) then None
  else Some (omap convertTool functionTools).

Definition translateRequest (responsesRequest : ResponsesAPIRequest)
  : ChatCompletionsRequest :=
  {| cr_model := mapModelName (rq_model responsesRequest);
     cr_messages :=
       convertInputToMessages (rq_input responsesRequest)
         (rq_instructions responsesRequest);
     cr_temperature := rq_temperature responsesRequest;
     cr_max_tokens := rq_max_output_tokens responsesRequest;
     cr_top_p := rq_top_p responsesRequest;
     cr_stream := rq_stream responsesRequest;
     cr_tools :=
       match rq_tools responsesRequest with
       | Some tools =>
           if bool_decide (0 < length tools)%nat then
             match convertTools tools with
             | Some converted => SetTo converted
             | None => SetUndefined
             end
           else Unset
       | None => Unset
       end;
     cr_tool_choice := rq_tool_choice responsesRequest |}.

Definition validateRequest (request : jsval) : result jsval :=
  if negb (truthy request) || negb (bool_decide (typeof request = "object")) then
    Throw (ErrorInstance "Request body must be a JSON object")
  else
    let req := request in
    if negb (truthy (get req "model"))
       || negb (bool_decide (typeof (get req "model") = "string")) then
      Throw (ErrorInstance "'model' field is required and must be a string")
    else
      match get req "input" with
      | JUndefined | JNull => Throw (ErrorInstance "'input' field is required")
      | input =>
          if negb (bool_decide (typeof input = "string")) && negb (isArray input) then
            Throw (ErrorInstance "'input' must be a string or an array of messages")
          else Ok req
      end.

End RequestTranslator.
Import RequestTranslator.

(** ** server.ts: the streaming handler *)

Module Server.

(** The async generator [createStreamingCompletion(chatRequest)] as the
    handler sees it: the chunks it yields, then either its return
    ([failure = None]) or the value it throws. A generator that throws
    before its first chunk has [yielded = []]. *)
Record Upstream := {
  yielded : list ChatStreamChunk;
  failure : option thrown;
}.

(** The [for await] loop: every chunk is translated against the one
    [state] and its events are written in order. *)
Fixpoint forAwait (chunks : list ChatStreamChunk) (state : StreamState)
  : list ResponsesStreamEvent * StreamState :=
  match chunks with
  | [] => ([], state)
  | chunk :: rest =>
      let '(events, state) := translateStreamChunk chunk state in
      let '(written, state) := forAwait rest state in
      (events ++ written, state)
  end.

(** The chunk the handler makes up when the stream ended and
    [state.hasStartedOutput] is still false. *)
Definition emptyChunk (env : Env) (responsesRequest : ResponsesAPIRequest)
  : ChatStreamChunk :=
  {| chunk_id := "empty";
     chunk_created := seconds env 1;
     chunk_model := rq_model responsesRequest;
     choices :=
       [ {| sc_index := 0;
            sc_delta := {| delta_content := Some EmptyString |};
            sc_finish_reason := Some Stop |} ] |}.

(** The events written to [res] (each one framed by [formatSSE]), in the
    order of the writes, and the state when the handler ends. *)
Definition streamExchange (env : Env) (responsesRequest : ResponsesAPIRequest)
    (upstream : Upstream) : list ResponsesStreamEvent * StreamState :=
  let state := createStreamState env (rq_model responsesRequest) in
  let written := [createResponseCreatedEvent state] in
  let written := written ++ [createResponseInProgressEvent state] in
  let '(events, state) := forAwait (yielded upstream) state in
  let written := written ++ events in
  match failure upstream with
  | None =>
      if negb (hasStartedOutput state) then
        let '(events, state) :=
          translateStreamChunk (emptyChunk env responsesRequest) state in
        (written ++ events, state)
      else (written, state)
  | Some error =>
      (written ++
         [error_event
            {| err_code := "stream_error";
               err_message :=
                 match error with
                 | ErrorInstance message => message
                 | _ => "Unknown streaming error"
                 end |}],
       state)
  end.

Definition handleStreamingRequest (env : Env) (responsesRequest : ResponsesAPIRequest)
    (upstream : Upstream) : list ResponsesStreamEvent :=
  fst (streamExchange env responsesRequest upstream).

End Server.
Import Server.

(** ** Vocabulary of the properties *)

Module Stream.

(** [chunk.choices[0]] *)
Definition firstChoice (chunk : ChatStreamChunk) : option ChatStreamChoice :=
  choices chunk !! 0%nat.

(** The finish reason a chunk carries, if any. *)
Definition finishReason (chunk : ChatStreamChunk) : option FinishReason :=
  firstChoice chunk ≫= sc_finish_reason.

(** The non-empty content delta a chunk carries, if any. *)
Definition contentDelta (chunk : ChatStreamChunk) : option string :=
  firstChoice chunk ≫= λ choice,
    delta_content (sc_delta choice) ≫= λ content,
      if truthy_string content then Some content else None.

Definition contentDeltas (chunks : list ChatStreamChunk) : list string :=
  omap contentDelta chunks.

(** The state after one more non-empty content delta, and after a run
    of them. *)
Definition feed (state : StreamState) (content : string) : StreamState :=
  set_accumulatedText (accumulatedText state +:+ content)
    (if hasStartedOutput state then state
     else set_hasAddedContentPart true (set_hasStartedOutput true state)).

Definition absorb (contents : list string) (state : StreamState) : StreamState :=
  foldl feed state contents.

Definition openingEvents (state : StreamState) : list ResponsesStreamEvent :=
  [outputItemAdded state; contentPartAdded].

Definition deltaEvents (contents : list string) : list ResponsesStreamEvent :=
  response_output_text_delta 0 0 <$> contents.

(** The five events that close an exchange, as [onFinishReason] pushes
    them once the output has started. *)
Definition terminalEvents (reason : FinishReason) (state : StreamState)
  : list ResponsesStreamEvent :=
  fst (onFinishReason
         {| sc_index := 0; sc_delta := {| delta_content := None |};
            sc_finish_reason := Some reason |}
         [] (set_hasStartedOutput true state)).

Definition terminalTags : list string :=
  ["response.output_text.done"; "response.content_part.done";
   "response.output_item.done"; "response.completed"; "response.done"].

(** The text of the [output_text.delta] events of a trace. *)
Definition deltaTexts (events : list ResponsesStreamEvent) : list string :=
  omap (λ e, match e with
             | response_output_text_delta _ _ delta => Some delta
             | _ => None
             end) events.

Definition count (tag : string) (events : list ResponsesStreamEvent) : nat :=
  length (filter (λ e, event_type e = tag) events).

(** The response object an event carries, if its type has one. *)
Definition eventResponse (e : ResponsesStreamEvent) : option ResponsesAPIResponse :=
  match e with
  | response_created r | response_in_progress r
  | response_completed r | response_done r => Some r
  | _ => None
  end.

(** The message identifiers an event carries: the [id] of its item, or
    the [id]s of the output messages of its response. *)
Definition eventMessageIds (e : ResponsesStreamEvent) : list string :=
  match e with
  | response_output_item_added _ item | response_output_item_done _ item => [item_id item]
  | _ => om_id <$> default [] (output <$> eventResponse e)
  end.

Definition zeroUsage : ResponsesUsage :=
  {| input_tokens := 0; output_tokens := 0; total_tokens := 0 |}.

(** An event of the exchange that started in [state] carries the
    identifiers of [state] and zero usage counters. *)
Definition carriesIdentity (state : StreamState) (e : ResponsesStreamEvent) : Prop :=
  (∀ r, eventResponse e = Some r → id r = responseId state ∧ usage r = zeroUsage)
  ∧ Forall (λ i, i = messageId state) (eventMessageIds e).

(** The fields [translateStreamChunk] never assigns. *)
Definition sameFrame (a b : StreamState) : Prop :=
  responseId b = responseId a ∧ messageId b = messageId a
  ∧ contentPartId b = contentPartId a ∧ model b = model a
  ∧ createdAt b = createdAt a
  ∧ inputTokens b = inputTokens a ∧ outputTokens b = outputTokens a.

End Stream.
Import Stream.

Module Request.

Definition isObject (v : jsval) : bool :=
  match v with JObj _ => true | _ => false end.

Definition isString (v : jsval) : bool :=
  match v with JStr _ => true | _ => false end.

Definition isNonEmptyString (v : jsval) : bool :=
  match v with JStr s => truthy_string s | _ => false end.

(** The failure condition of validation in the words of the
    specification: the payload is not an object; [model] is missing or
    not a string; [input] is missing, null, or neither a string nor a
    sequence. *)
Definition specInvalid (raw : jsval) : bool :=
  negb (isObject raw)
  || negb (isString (get raw "model"))
  || negb (isString (get raw "input") || isArray (get raw "input")).

(** The same with an empty [model] counted as missing. *)
Definition gateInvalid (raw : jsval) : bool :=
  negb (isObject raw)
  || negb (isNonEmptyString (get raw "model"))
  || negb (isString (get raw "input") || isArray (get raw "input")).

Definition fails {A} (r : result A) : bool :=
  match r with Throw _ => true | Ok _ => false end.

Definition systemMessage (text : string) : ChatMessage :=
  {| cm_role := System; cm_content := ContentString text |}.

Definition userMessage (text : string) : ChatMessage :=
  {| cm_role := User; cm_content := ContentString text |}.

(** The messages of a request with string input in the words of the
    specification: one user message, with a leading system message iff
    [instructions] was set. *)
Definition specMessages (instructions : option string) (input : string)
  : list ChatMessage :=
  match instructions with
  | Some text => [systemMessage text; userMessage input]
  | None => [userMessage input]
  end.

(** The tools a request declares, none when the property is missing. *)
Definition declaredTools (request : ResponsesAPIRequest) : list ResponsesTool :=
  default [] (rq_tools request).

(** The function declaration of a function-capable tool. *)
Definition functionOf (tool : ResponsesTool) : option ChatFunction :=
  match rt_type tool with
  | ToolFunction => rt_function tool
  | WebSearchPreview | FileSearch | CodeInterpreter => None
  end.

(** The function-capable subset of a list of tools, in its order. *)
Definition functionCapable (tools : list ResponsesTool) : list ChatFunction :=
  omap functionOf tools.

(** The 1:1 conversion: name, description and parameter schema. *)
Definition asChatTool (f : ChatFunction) : ChatTool :=
  {| ct_function :=
       {| cf_name := cf_name f; cf_description := cf_description f;
          cf_parameters := cf_parameters f |} |}.

End Request.
Import Request.

(** ** Concrete inputs *)

Module Examples.

Definition env0 : Env :=
  {| entropy := λ call, String (ascii_of_nat (97 + call)) "m3k9x";
     seconds := λ _, 1700000000 |}.

(** [{model: "gpt-4o", input: "Say hi"}] with the given extras. *)
Definition sayHi (instructions : option string) (tools : option (list ResponsesTool))
  : ResponsesAPIRequest :=
  {| rq_model := "gpt-4o"; rq_input := InputString "Say hi";
     rq_instructions := instructions;
     rq_temperature := None; rq_max_output_tokens := None; rq_top_p := None;
     rq_tools := tools; rq_tool_choice := None; rq_stream := Some true |}.

(** A chunk with one choice. *)
Definition chunkOf (content : option string) (reason : option FinishReason)
  : ChatStreamChunk :=
  {| chunk_id := "gen-1"; chunk_created := 1700000000;
     chunk_model := "openai/gpt-4o";
     choices := [ {| sc_index := 0; sc_delta := {| delta_content := content |};
                     sc_finish_reason := reason |} ] |}.

(** [{delta: {content: "Hi"}, finish_reason: null}] *)
Definition hiChunk : ChatStreamChunk := chunkOf (Some "Hi") None.

(** [{delta: {}, finish_reason: "stop"}] *)
Definition stopChunk : ChatStreamChunk := chunkOf None (Some Stop).

(** [{delta: {content: "more"}, finish_reason: "stop"}] *)
Definition moreStopChunk : ChatStreamChunk := chunkOf (Some "more") (Some Stop).

(** [{model: <model>, input: "hi"}] *)
Definition payload (model : string) : jsval :=
  JObj (<["model" := JStr model]> (<["input" := JStr "hi"]> ∅)).

(** [[{type: "web_search_preview"}, {type: "function", function: {name: "lookup"}}]] *)
Definition lookupTools : list ResponsesTool :=
  [ {| rt_type := WebSearchPreview; rt_function := None |};
    {| rt_type := ToolFunction;
       rt_function := Some {| cf_name := "lookup"; cf_description := None;
                              cf_parameters := None |} |} ].

Definition closes (chunks : list ChatStreamChunk) : Upstream :=
  {| yielded := chunks; failure := None |}.

Definition breaks (chunks : list ChatStreamChunk) (message : string) : Upstream :=
  {| yielded := chunks; failure := Some (ErrorInstance message) |}.

End Examples.
Import Examples.

(** ** server.ts: the endpoint POST /v1/responses *)

Module Endpoint.

(** What the endpoint answers: a JSON document with an HTTP status
    ([res.json] answers 200, [res.status(500).json] answers 500), or the
    event stream of [handleStreamingRequest]. *)
Inductive Reply :=
| JsonReply (httpStatus : Z) (body : ResponsesAPIResponse)
| EventStream (events : list ResponsesStreamEvent).

Section Handler.

(** The cast of the validated payload to [ResponsesAPIRequest]: the typed
    reading of the payload. *)
Variable asRequest : jsval → ResponsesAPIRequest.

(** The two calls of the client: what [createCompletion] returns or
    throws, and how the generator of [createStreamingCompletion] behaves,
    for a given request. *)
Variable createCompletion : ChatCompletionsRequest → result ChatCompletionsResponse.
Variable createStreamingCompletion : ChatCompletionsRequest → Upstream.

Variable JSON_stringify : list ChatContentPart → string.

(** The handler of [app.post("/v1/responses", ...)]: the body of its
    [try], and its [catch] on every [Throw]. The validated payload is read
    at its declared type, so this is the handler on payloads whose input
    and tools have the shape of [ResponsesAPIRequest] and on thrown values
    of the shapes of [thrown]; on others [translateRequest] or
    [translateError] can throw a TypeError of their own. *)
Definition postResponses (env : Env) (body : jsval) : Reply :=
  match validateRequest body with
  | Throw error => JsonReply 500 (translateError env error)
  | Ok validated =>
      let responsesRequest := asRequest validated in
      let chatRequest := translateRequest responsesRequest in
      if bool_decide (rq_stream responsesRequest = Some true) then
        EventStream
          (handleStreamingRequest env responsesRequest
             (createStreamingCompletion chatRequest))
      else
        match createCompletion chatRequest with
        | Throw error => JsonReply 500 (translateError env error)
        | Ok chatResponse =>
            match translateResponse JSON_stringify env chatResponse
                    (Some (rq_model responsesRequest)) with
            | Throw error => JsonReply 500 (translateError env error)
            | Ok responsesResponse => JsonReply 200 responsesResponse
            end
        end
  end.

End Handler.

End Endpoint.
Import Endpoint.

(** ** openrouter-client.ts: the streaming call

    The built-ins [String.prototype.trim] and [JSON.parse] are
    parameters. The answer of the network is an input: [fetch] rejects,
    or the response is not ok and has a body text, or it has no body, or
    its reader delivers texts (each one what [decoder.decode] returns for
    a read) and then reports the end or rejects. Console logging is not
    modelled. *)

Module Client.

Inductive FetchResult :=
| FetchRejected (error : thrown)
| HttpError (errorBody : string)
| NoBody
| Body (reads : list string) (ending : option thrown).

Definition lineFeed : ascii := ascii_of_nat 10.

(** [s.split("\n")] *)
Fixpoint split_lines (s : string) : list string :=
  match s with
  | EmptyString => [EmptyString]
  | String c rest =>
      if bool_decide (c = lineFeed) then EmptyString :: split_lines rest
      else match split_lines rest with
           | first :: others => String c first :: others
           | [] => [String c EmptyString]
           end
  end.

(** [s.startsWith(prefix)] *)
Definition startsWith (prefix s : string) : bool := String.prefix prefix s.

(** [s.slice(n)] for [n] within the string or at its end. *)
Fixpoint slice (n : nat) (s : string) : string :=
  match n, s with
  | O, _ => s
  | S n', String _ rest => slice n' rest
  | S _, EmptyString => EmptyString
  end.

(** What one turn of the loop over the lines does. *)
Inductive LineAction :=
| Continue
| Return
| Yield (chunk : ChatStreamChunk).

Section Generator.

Variable trim : string → string.

(** [JSON.parse(data)] read through the type [ChatStreamChunk]; [None]
    when it throws. *)
Variable JSON_parse : string → option ChatStreamChunk.

(** [JSON.parse(errorBody)]: [None] when it throws, else the parsed value,
    which is an object of the [OpenRouterError] shape or some other
    value. *)
Variable JSON_parse_error : string → option (option OpenRouterErrorBody).

Definition onLine (line : string) : LineAction :=
  let trimmed := trim line in
  if negb (truthy_string trimmed) || startsWith ":" trimmed then Continue
  else if startsWith "data:" trimmed then
    let data := trim (slice 5 trimmed) in
    if bool_decide (data = "[DONE]") then Return
    else match JSON_parse data with
         | Some chunk => Yield chunk
         | None => Continue
         end
  else Continue.

(** The loop over the complete lines of one read: the chunks it yields
    and whether it returned from the generator. *)
Fixpoint forLines (lines : list string) : list ChatStreamChunk * bool :=
  match lines with
  | [] => ([], false)
  | line :: rest =>
      match onLine line with
      | Continue => forLines rest
      | Return => ([], true)
      | Yield chunk => let '(chunks, returned) := forLines rest in (chunk :: chunks, returned)
      end
  end.

(** The [while (true)] loop over the reads, from the current [buffer]. *)
Fixpoint readLoop (buffer : string) (reads : list string) (ending : option thrown)
  : Upstream :=
  match reads with
  | [] => {| yielded := []; failure := ending |}
  | value :: rest =>
      let buffer := buffer +:+ value in
      let lines := split_lines buffer in
      let buffer := or_string (last lines) EmptyString in
      let lines := removelast lines in
      let '(chunks, returned) := forLines lines in
      if returned then {| yielded := chunks; failure := None |}
      else
        let later := readLoop buffer rest ending in
        {| yielded := chunks ++ yielded later; failure := failure later |}
  end.

Definition createStreamingCompletion (response : FetchResult) : Upstream :=
  match response with
  | FetchRejected error => {| yielded := []; failure := Some error |}
  | HttpError errorBody =>
      let errorData :=
        match JSON_parse_error errorBody with
        | Some (Some body) => ApiErrorObject body
        | Some None => OtherThrown
        | None =>
            ApiErrorObject {| oe_message := errorBody; oe_type := "api_error";
                              oe_code := None; oe_param := None |}
        end in
      {| yielded := []; failure := Some errorData |}
  | NoBody =>
      {| yielded := [];
         failure := Some (ErrorInstance "No response body for streaming") |}
  | Body reads ending => readLoop EmptyString reads ending
  end.

(** The answer of the network to the call that does not stream: [fetch]
    rejects, or the response is not ok and has a body text, or
    [response.json()] gives the completion or throws. *)
Inductive CompletionFetch :=
| CompletionRejected (error : thrown)
| CompletionHttpError (errorBody : string)
| CompletionData (data : result ChatCompletionsResponse).

(** The value thrown for a response that is not ok. *)
Definition errorData (errorBody : string) : thrown :=
  match JSON_parse_error errorBody with
  | Some (Some body) => ApiErrorObject body
  | Some None => OtherThrown
  | None =>
      ApiErrorObject {| oe_message := errorBody; oe_type := "api_error";
                        oe_code := None; oe_param := None |}
  end.

Definition createCompletion (response : CompletionFetch)
  : result ChatCompletionsResponse :=
  match response with
  | CompletionRejected error => Throw error
  | CompletionHttpError errorBody => Throw (errorData errorBody)
  | CompletionData data => data
  end.

(** The complete lines of a text, those that a line feed ends, and the
    text after the last line feed. *)
Definition completeLines (text : string) : list string :=
  removelast (split_lines text).

Definition lastLine (text : string) : string :=
  default EmptyString (last (split_lines text)).

(** What the generator does on a body, told from the whole text of the
    body. *)
Definition fromText (text : string) (ending : option thrown) : Upstream :=
  let '(chunks, returned) := forLines (completeLines text) in
  {| yielded := chunks; failure := if returned then None else ending |}.

End Generator.

(** All the reads of a body, joined. *)
Definition joined (reads : list string) : string :=
  foldr String.append EmptyString reads.

Definition includes_lineFeed (s : string) : bool :=
  bool_decide (is_Some (String.index 0 (String lineFeed EmptyString) s)).

End Client.
Import Client.

(** ** More concrete inputs *)

Module MoreExamples.

(** [{model: "gpt-4o", input: "hi"}] read through the type. *)
Definition askOnce : ResponsesAPIRequest :=
  {| rq_model := "gpt-4o"; rq_input := InputString "hi";
     rq_instructions := None;
     rq_temperature := None; rq_max_output_tokens := None; rq_top_p := None;
     rq_tools := None; rq_tool_choice := None; rq_stream := None |}.

(** The error object of a non-2xx answer
    [{error: {message: "Rate limit exceeded", type: "rate_limit_error", code: "429"}}],
    and the generator that throws it before its first chunk. *)
Definition rateLimited : OpenRouterErrorBody :=
  {| oe_message := "Rate limit exceeded"; oe_type := "rate_limit_error";
     oe_code := Some "429"; oe_param := None |}.

Definition rateLimitedUpstream : Upstream :=
  {| yielded := []; failure := Some (ApiErrorObject rateLimited) |}.

End MoreExamples.
Import MoreExamples.

(** ** [translateError] on values of any shape

    The parameter of [translateError] has the type
    [OpenRouterError | Error | unknown], and what the client throws for a
    non-2xx answer is the parsed JSON body, whatever its shape. Here the
    caught value is an Error or a JSON value (or [undefined]), the fields
    of the error envelope are the values the code computes (they need not
    be strings), and reading a property of [null] or [undefined] throws
    a TypeError. *)

Module Caught.

Inductive caught :=
| CaughtError (message : string)
| CaughtValue (value : jsval).

Inductive outcome (A : Type) :=
| Returns (a : A)
| ThrowsTypeError.
Global Arguments Returns {A} a.
Global Arguments ThrowsTypeError {A}.

(** [a || b] *)
Definition or_value (a b : jsval) : jsval := if truthy a then a else b.

(** The document [translateError] returns; [ed_code] and [ed_message] are
    [error.code] and [error.message]. *)
Record ErrorDocument := {
  ed_id : string;
  ed_created_at : Z;
  ed_model : string;
  ed_status : Status;
  ed_output : list ResponsesOutputMessage;
  ed_usage : ResponsesUsage;
  ed_code : jsval;
  ed_message : jsval;
}.

Definition errorDocument (env : Env) (errorCode errorMessage : jsval) : ErrorDocument :=
  {| ed_id := generateId env 0 "resp";
     ed_created_at := seconds env 0;
     ed_model := "unknown";
     ed_status := Failed;
     ed_output := [];
     ed_usage := {| input_tokens := 0; output_tokens := 0; total_tokens := 0 |};
     ed_code := errorCode;
     ed_message := errorMessage |}.

(** [translateError]: the test [instanceof Error]; then
    [typeof error === "object" && error !== null && "error" in error],
    which holds of an object with an [error] property and of nothing else
    that [JSON.parse] yields; then the reads of [error.error.message],
    [.code] and [.type]. *)
Definition translateErrorValue (env : Env) (error : caught) : outcome ErrorDocument :=
  match error with
  | CaughtError message =>
      Returns (errorDocument env (JStr "internal_error") (JStr message))
  | CaughtValue (JObj fields) =>
      match fields !! "error" with
      | Some inner =>
          match inner with
          | JUndefined | JNull => ThrowsTypeError
          | _ =>
              let errorMessage := get inner "message" in
              let errorCode :=
                or_value (get inner "code")
                  (or_value (get inner "type") (JStr "api_error")) in
              Returns (errorDocument env errorCode errorMessage)
          end
      | None =>
          Returns (errorDocument env (JStr "internal_error")
                     (JStr "Unknown error occurred"))
      end
  | CaughtValue _ =>
      Returns (errorDocument env (JStr "internal_error")
                 (JStr "Unknown error occurred"))
  end.

(** The three shapes of [thrown] as caught values: an object of the
    declared [OpenRouterError] shape has string fields, [code] and [param]
    being optional. *)
Definition optionalField (key : string) (value : option string)
    (fields : gmap string jsval) : gmap string jsval :=
  match value with
  | Some text => <[key := JStr text]> fields
  | None => fields
  end.

Definition errorObject (body : OpenRouterErrorBody) : jsval :=
  JObj (<["error" :=
            JObj (optionalField "code" (oe_code body)
                    (optionalField "param" (oe_param body)
                       (<["message" := JStr (oe_message body)]>
                          (<["type" := JStr (oe_type body)]> ∅))))]> ∅).

(** A document of the typed model as the document of values. *)
Definition asErrorDocument (document : ResponsesAPIResponse) : ErrorDocument :=
  {| ed_id := id document;
     ed_created_at := created_at document;
     ed_model := resp_model document;
     ed_status := status document;
     ed_output := output document;
     ed_usage := usage document;
     ed_code := from_option (λ info, JStr (err_code info)) JUndefined
                  (ResponsesApi.error document);
     ed_message := from_option (λ info, JStr (err_message info)) JUndefined
                     (ResponsesApi.error document) |}.

End Caught.
Import Caught.

(** ** Vocabulary of the request properties *)

Module RequestShape.

(** The property names that every object inherits and that are their own
    lower-case form; [MODEL_MAP[...]] finds them although the table does
    not list them. *)
Definition inheritedKeys : list string := ["constructor"; "__proto__"].

(** What [validateRequest] throws, by the shape of the payload. *)
Definition validationMessage (raw : jsval) : option string :=
  match raw with
  | JUndefined | JNull | JBool _ | JNum _ | JStr _ =>
      Some "Request body must be a JSON object"
  | JArr _ => Some "'model' field is required and must be a string"
  | JObj fields =>
      match fields !! "model" with
      | Some (JStr name) =>
          if bool_decide (name = EmptyString)
          then Some "'model' field is required and must be a string"
          else match fields !! "input" with
               | None | Some JUndefined | Some JNull => Some "'input' field is required"
               | Some (JStr _) | Some (JArr _) => None
               | Some (JBool _) | Some (JNum _) | Some (JObj _) =>
                   Some "'input' must be a string or an array of messages"
               end
      | _ => Some "'model' field is required and must be a string"
      end
  end.

(** A text of ASCII characters only. *)
Fixpoint isAscii (s : string) : bool :=
  match s with
  | EmptyString => true
  | String c rest => (nat_of_ascii c <? 128)%nat && isAscii rest
  end.

(** A content part as [convertContent] builds it: a text part with a
    non-empty text and nothing else, or an image part with a non-empty
    url, no detail and nothing else. *)
Definition wellFormedPart (part : ChatContentPart) : Prop :=
  (cp_type part = PartText ∧ cp_image_url part = None
   ∧ ∃ text, cp_text part = Some text ∧ text ≠ EmptyString)
  ∨ (cp_type part = PartImageUrl ∧ cp_text part = None
     ∧ ∃ url, cp_image_url part = Some {| iu_url := url; iu_detail := None |}
              ∧ url ≠ EmptyString).

(** The non-empty texts of the text parts of a content, in its order. *)
Definition inputTexts (parts : list ResponsesContentPart) : list string :=
  omap (λ part, match ip_type part with
                | InputText => ip_text part ≫= λ text,
                                 if truthy_string text then Some text else None
                | InputImage => None
                end) parts.

(** The system message of a request, if its instructions are a non-empty
    text. *)
Definition systemMessages (instructions : option string) : list ChatMessage :=
  match instructions with
  | Some text => if truthy_string text then [systemMessage text] else []
  | None => []
  end.

End RequestShape.
Import RequestShape.

(** ** Vocabulary of the exchange as a whole *)

Module Exchange.

(** The number of chunks that carry a finish reason. *)
Definition finishCount (chunks : list ChatStreamChunk) : nat :=
  length (filter (λ chunk, is_Some (finishReason chunk)) chunks).

Definition openingTags : list string :=
  ["response.output_item.added"; "response.content_part.added"].

(** The event types of one call of [translateStreamChunk], from whether
    the output had started and whether the chunk carries a non-empty
    content and a finish reason. *)
Definition chunkTags (started hasContent finished : bool) : list string :=
  (if negb started && (hasContent || finished) then openingTags else [])
  ++ (if hasContent then ["response.output_text.delta"] else [])
  ++ (if finished then terminalTags else []).

Definition hasContent (chunk : ChatStreamChunk) : bool :=
  bool_decide (is_Some (contentDelta chunk)).

Definition hasFinish (chunk : ChatStreamChunk) : bool :=
  bool_decide (is_Some (finishReason chunk)).

(** The event types of a run of calls. *)
Fixpoint runTags (started : bool) (chunks : list ChatStreamChunk) : list string :=
  match chunks with
  | [] => []
  | chunk :: rest =>
      chunkTags started (hasContent chunk) (hasFinish chunk)
      ++ runTags (started || hasContent chunk || hasFinish chunk) rest
  end.

(** Whether some chunk of a run carried a non-empty content or a finish
    reason. *)
Definition anyOutput (chunks : list ChatStreamChunk) : bool :=
  existsb (λ chunk, hasContent chunk || hasFinish chunk) chunks.

Definition tagCount (tag : string) (tags : list string) : nat :=
  length (filter (λ t, t = tag) tags).

(** The response object of the [completed] and [done] events of an
    exchange that started in [state0], accumulated [text] and finished
    with [reason]. *)
Definition finalResponse (state0 : StreamState) (text : string)
    (reason : FinishReason) : ResponsesAPIResponse :=
  {| id := responseId state0;
     created_at := createdAt state0;
     resp_model := model state0;
     status := match reason with ContentFilter => Failed | _ => Completed end;
     output := [ {| om_id := messageId state0;
                    om_content := [ {| ot_text := text |} ] |} ];
     usage := zeroUsage;
     error := None |}.

End Exchange.
Import Exchange.

(** ** Properties of the stream synthesizer *)

(** [each_event] splits a goal on an explicit list of events into one goal
    per event; [carries_identity] reduces [carriesIdentity] on an explicit
    event to the equations on its response, if it has one. *)
Ltac each_event :=
  repeat match goal with
         | |- Forall _ (_ :: _) => constructor
         | |- Forall _ [] => constructor
         end.

(** [tag_cases H] turns the membership [H] of a tag in an explicit list
    into one case per element of the list. *)
Ltac tag_cases H :=
  repeat (apply elem_of_cons in H as [H|H]); [..|by apply elem_of_nil in H].

Ltac other_tag :=
  let H := fresh "H" in
  simpl; intros H; tag_cases H; discriminate.

(** [count_tags] evaluates the counts over explicit lists of tags. *)
Ltac count_tags :=
  repeat match goal with
         | |- context [tagCount ?t ?l] =>
             let n := eval vm_compute in (tagCount t l) in
             change (tagCount t l) with n
         end.

Ltac carries_identity :=
  split;
  [ let r := fresh "r" in let Hr := fresh "Hr" in
    intros r Hr; simpl in Hr; simplify_eq; simpl
  | simpl; repeat constructor ].

Section StreamFacts.

Implicit Types (chunk : ChatStreamChunk) (state : StreamState).
Implicit Types (chunks : list ChatStreamChunk) (contents : list string).

Lemma started_set state :
  hasStartedOutput state = true → set_hasStartedOutput true state = state.
Proof. destruct state; simpl; intros ->; reflexivity. Qed.

Lemma openingEvents_feed state content :
  openingEvents (feed state content) = openingEvents state.
Proof. destruct state as [? ? ? ? ? ? ? ? [] ?]; reflexivity. Qed.

Lemma started_feed state content : hasStartedOutput (feed state content) = true.
Proof. destruct state as [? ? ? ? ? ? ? ? [] ?]; reflexivity. Qed.

Lemma sameFrame_refl state : sameFrame state state.
Proof. repeat split. Qed.

Lemma sameFrame_trans a b c : sameFrame a b → sameFrame b c → sameFrame a c.
Proof. unfold sameFrame; intros; intuition congruence. Qed.

Lemma sameFrame_feed state content : sameFrame state (feed state content).
Proof. destruct state as [? ? ? ? ? ? ? ? [] ?]; repeat split. Qed.

Lemma sameFrame_absorb contents state : sameFrame state (absorb contents state).
Proof.
  revert state; induction contents as [|c cs IH]; intros state; simpl.
  - apply sameFrame_refl.
  - eapply sameFrame_trans; [apply sameFrame_feed | apply IH].
Qed.

Lemma sameFrame_started state b : sameFrame state (set_hasStartedOutput b state).
Proof. repeat split. Qed.

(** One call of [translateStreamChunk], case by case. *)
Lemma translateStreamChunk_cases chunk state :
  translateStreamChunk chunk state =
    match firstChoice chunk with
    | None => ([], state)
    | Some _ =>
        let contents := option_list (contentDelta chunk) in
        let state' := absorb contents state in
        match finishReason chunk with
        | None =>
            ((if hasStartedOutput state || bool_decide (contents = [])
              then [] else openingEvents state) ++ deltaEvents contents,
             state')
        | Some reason =>
            ((if hasStartedOutput state then [] else openingEvents state)
               ++ deltaEvents contents ++ terminalEvents reason state',
             set_hasStartedOutput true state')
        end
    end.
Proof.
  unfold translateStreamChunk, finishReason, contentDelta, firstChoice.
  destruct (choices chunk !! 0%nat) as [[idx [content] reason]|]; [|reflexivity].
  destruct state as [? ? ? ? ? ? ? ? started added].
  unfold onContentDelta, onFinishReason; simpl.
  destruct content as [content|]; simpl;
    [destruct (truthy_string content); simpl|];
    destruct reason as [reason|], started; reflexivity.
Qed.

Lemma absorb_app contents more state :
  absorb (contents ++ more) state = absorb more (absorb contents state).
Proof. apply foldl_app. Qed.

Lemma started_absorb contents state :
  hasStartedOutput (absorb contents state)
  = hasStartedOutput state || negb (bool_decide (contents = [])).
Proof.
  revert state; induction contents as [|c cs IH]; intros state; simpl.
  - by rewrite orb_false_r.
  - rewrite IH, started_feed. by destruct (hasStartedOutput state).
Qed.

Lemma openingEvents_absorb contents state :
  openingEvents (absorb contents state) = openingEvents state.
Proof.
  revert state; induction contents as [|c cs IH]; intros state; simpl; [done|].
  by rewrite IH, openingEvents_feed.
Qed.

Lemma accumulatedText_feed state content :
  accumulatedText (feed state content) = accumulatedText state +:+ content.
Proof. reflexivity. Qed.

Lemma accumulatedText_absorb contents state :
  accumulatedText (absorb contents state)
  = foldl String.append (accumulatedText state) contents.
Proof.
  revert state; induction contents as [|c cs IH]; intros state; simpl; [done|].
  by rewrite IH.
Qed.

Lemma forAwait_app chunks more state :
  forAwait (chunks ++ more) state =
    let '(events, state') := forAwait chunks state in
    let '(written, state'') := forAwait more state' in
    (events ++ written, state'').
Proof.
  revert state; induction chunks as [|chunk chunks IH]; intros state; simpl.
  - by destruct (forAwait more state).
  - destruct (translateStreamChunk chunk state) as [events state1].
    rewrite IH. destruct (forAwait chunks state1) as [written state2].
    destruct (forAwait more state2) as [written' state3].
    by rewrite app_assoc.
Qed.

Lemma translateStreamChunk_unfinished chunk state :
  finishReason chunk = None →
  translateStreamChunk chunk state =
    let contents := option_list (contentDelta chunk) in
    ((if hasStartedOutput state || bool_decide (contents = [])
      then [] else openingEvents state) ++ deltaEvents contents,
     absorb contents state).
Proof.
  intros Hnone. rewrite translateStreamChunk_cases, Hnone.
  unfold contentDelta. destruct (firstChoice chunk); [done|].
  simpl. by rewrite orb_true_r.
Qed.

Lemma contentDeltas_cons chunk chunks :
  contentDeltas (chunk :: chunks)
  = option_list (contentDelta chunk) ++ contentDeltas chunks.
Proof. unfold contentDeltas; simpl. by destruct (contentDelta chunk). Qed.

(** A run of chunks without finish reason: the opening pair before the
    first delta, then one delta event per non-empty content. *)
Lemma forAwait_unfinished chunks state :
  Forall (λ chunk, finishReason chunk = None) chunks →
  forAwait chunks state =
    ((if hasStartedOutput state || bool_decide (contentDeltas chunks = [])
      then [] else openingEvents state) ++ deltaEvents (contentDeltas chunks),
     absorb (contentDeltas chunks) state).
Proof.
  intros Hall; revert state.
  induction Hall as [|chunk chunks Hnone _ IH]; intros state.
  - simpl. by rewrite orb_true_r.
  - cbn [forAwait].
    rewrite (translateStreamChunk_unfinished _ _ Hnone), contentDeltas_cons.
    cbn beta iota zeta. rewrite IH, absorb_app, started_absorb, openingEvents_absorb.
    unfold deltaEvents. rewrite fmap_app.
    destruct (contentDelta chunk) as [content|], (hasStartedOutput state);
      cbn [option_list orb negb app fmap list_fmap];
      repeat case_bool_decide; simplify_eq; cbn [orb negb app]; done.
Qed.

(** A run of chunks of which the last one, and no other, carries a
    finish reason, from a state that has not started its output. *)
Lemma forAwait_finished chunks last reason state :
  hasStartedOutput state = false →
  Forall (λ chunk, finishReason chunk = None) chunks →
  finishReason last = Some reason →
  let contents := contentDeltas (chunks ++ [last]) in
  forAwait (chunks ++ [last]) state =
    (openingEvents state ++ deltaEvents contents
       ++ terminalEvents reason (absorb contents state),
     set_hasStartedOutput true (absorb contents state)).
Proof.
  intros Hfresh Hall Hlast contents.
  rewrite forAwait_app, (forAwait_unfinished _ _ Hall), Hfresh.
  cbn [forAwait]. rewrite translateStreamChunk_cases, Hlast.
  assert (is_Some (firstChoice last)) as [choice Hchoice].
  { unfold finishReason in Hlast. destruct (firstChoice last); [eauto|done]. }
  rewrite Hchoice. cbn zeta.
  subst contents. unfold contentDeltas. rewrite omap_app. cbn [omap list_omap].
  fold (contentDeltas chunks).
  replace (from_option (λ y, [y]) [] (contentDelta last))
    with (option_list (contentDelta last)) by by destruct (contentDelta last).
  replace (match contentDelta last with Some y => [y] | None => [] end)
    with (option_list (contentDelta last)) by by destruct (contentDelta last).
  rewrite absorb_app, started_absorb, openingEvents_absorb, Hfresh.
  unfold deltaEvents. rewrite fmap_app, app_nil_r. cbn [orb].
  destruct (bool_decide (contentDeltas chunks = [])) eqn:Hempty; cbn [negb].
  - apply bool_decide_eq_true_1 in Hempty. by rewrite Hempty.
  - by rewrite <- !app_assoc.
Qed.

Lemma event_type_deltaEvents contents :
  event_type <$> deltaEvents contents
  = replicate (length contents) "response.output_text.delta".
Proof. induction contents as [|c cs IH]; simpl; [done|]. by rewrite <- IH. Qed.

Lemma event_type_terminalEvents reason state :
  event_type <$> terminalEvents reason state = terminalTags.
Proof. reflexivity. Qed.

Lemma deltaTexts_deltaEvents contents : deltaTexts (deltaEvents contents) = contents.
Proof. induction contents as [|c cs IH]; simpl; [done|]. by rewrite <- IH at 2. Qed.

(** Without a finish reason only opening and delta events are pushed. *)
Lemma forAwait_unfinished_types chunks state :
  Forall (λ chunk, finishReason chunk = None) chunks →
  Forall (λ e, event_type e ∈ ["response.output_item.added";
                               "response.content_part.added";
                               "response.output_text.delta"])
         (forAwait chunks state).1.
Proof.
  intros Hall. rewrite (forAwait_unfinished _ _ Hall). cbn [fst].
  apply Forall_app; split.
  - destruct (_ || _); [constructor|].
    unfold openingEvents. each_event; simpl;
      [apply list_elem_of_here|apply list_elem_of_further, list_elem_of_here].
  - unfold deltaEvents. apply Forall_fmap, Forall_true. intros c. simpl.
    do 2 apply list_elem_of_further. apply list_elem_of_here.
Qed.

(** The events of one call carry the identifiers of the exchange. *)
Lemma translateStreamChunk_identity chunk state state0 :
  sameFrame state0 state → inputTokens state0 = 0 → outputTokens state0 = 0 →
  Forall (carriesIdentity state0) (translateStreamChunk chunk state).1.
Proof.
  intros (Hresp & Hmsg & _ & _ & _ & Hin & Hout) Hin0 Hout0.
  unfold translateStreamChunk.
  destruct (choices chunk !! 0%nat) as [[idx [content] reason]|]; [|constructor].
  destruct state as [? ? ? ? ? ? ? ? started added]; simpl in *; subst.
  unfold onContentDelta, onFinishReason; simpl.
  destruct content as [content|]; simpl;
    [destruct (truthy_string content); simpl|];
    destruct reason as [reason|], started; simpl;
    each_event; carries_identity; by rewrite ?Hin0, ?Hout0.
Qed.

Lemma translateStreamChunk_sameFrame chunk state :
  sameFrame state (translateStreamChunk chunk state).2.
Proof.
  rewrite translateStreamChunk_cases.
  destruct (firstChoice chunk); [|apply sameFrame_refl].
  cbn zeta. destruct (finishReason chunk); cbn [snd].
  - eapply sameFrame_trans; [apply sameFrame_absorb|apply sameFrame_started].
  - apply sameFrame_absorb.
Qed.

Lemma forAwait_identity chunks state state0 :
  sameFrame state0 state → inputTokens state0 = 0 → outputTokens state0 = 0 →
  Forall (carriesIdentity state0) (forAwait chunks state).1
  ∧ sameFrame state0 (forAwait chunks state).2.
Proof.
  intros Hframe Hin Hout. revert state Hframe.
  induction chunks as [|chunk chunks IH]; intros state Hframe; cbn [forAwait].
  - split; [constructor|done].
  - pose proof (translateStreamChunk_identity chunk state state0 Hframe Hin Hout) as Hev.
    pose proof (translateStreamChunk_sameFrame chunk state) as Hst.
    destruct (translateStreamChunk chunk state) as [events state1]; cbn [fst snd] in *.
    destruct (IH state1) as [Hevs Hframe']; [by eapply sameFrame_trans|].
    destruct (forAwait chunks state1) as [written state2]; cbn [fst snd] in *.
    split; [by apply Forall_app|done].
Qed.

(** There is no guard on a state that already saw a finish reason: a
    chunk with a finish reason closes with the five terminal events
    whatever the state is. *)
Lemma finish_chunk_terminal_events chunk reason state :
  finishReason chunk = Some reason →
  ∃ before,
    event_type <$> (translateStreamChunk chunk state).1 = before ++ terminalTags.
Proof.
  intros Hreason. rewrite translateStreamChunk_cases, Hreason.
  unfold finishReason in Hreason.
  destruct (firstChoice chunk); [|discriminate]. cbn zeta; cbn [fst].
  rewrite !fmap_app, event_type_terminalEvents, app_assoc. eauto.
Qed.

(** A stream that closes without finish reason and without content gets
    the terminal events from the made-up chunk. *)
Lemma silent_end_without_content env request chunks :
  Forall (λ chunk, finishReason chunk = None) chunks →
  contentDeltas chunks = [] →
  event_type <$> handleStreamingRequest env request {| yielded := chunks; failure := None |}
  = ["response.created"; "response.in_progress"; "response.output_item.added";
     "response.content_part.added"] ++ terminalTags.
Proof.
  intros Hall Hnone. unfold handleStreamingRequest, streamExchange.
  cbn [yielded failure]. rewrite (forAwait_unfinished _ _ Hall), Hnone.
  reflexivity.
Qed.

(** A stream that closes without finish reason after some content gets
    none of them. *)
Lemma silent_end_with_content env request chunks :
  Forall (λ chunk, finishReason chunk = None) chunks →
  contentDeltas chunks ≠ [] →
  event_type <$> handleStreamingRequest env request {| yielded := chunks; failure := None |}
  = ["response.created"; "response.in_progress"; "response.output_item.added";
     "response.content_part.added"]
    ++ replicate (length (contentDeltas chunks)) "response.output_text.delta".
Proof.
  intros Hall Hsome. unfold handleStreamingRequest, streamExchange.
  cbn [yielded failure]. rewrite (forAwait_unfinished _ _ Hall).
  rewrite started_absorb. cbn [hasStartedOutput createStreamState orb].
  rewrite bool_decide_eq_false_2 by done. cbn [negb fst].
  rewrite !fmap_app, event_type_deltaEvents. reflexivity.
Qed.

End StreamFacts.

(** C10. A chunk whose [choices] sequence is empty pushes no event and
    leaves every field of the state as it was. *)
Theorem translateStreamChunk_empty_choices
    (chunkId : string) (created : Z) (chunkModel : string) (state : StreamState) :
  translateStreamChunk
    {| chunk_id := chunkId; chunk_created := created; chunk_model := chunkModel;
       choices := [] |} state
  = ([], state).
Proof. reflexivity. Qed.

(** C9. A call of [translateStreamChunk] leaves [responseId], [messageId],
    [contentPartId], [model], [createdAt], [inputTokens] and [outputTokens]
    of the state unchanged; hence every event written in one exchange,
    however the upstream behaves, carries the response and message
    identifiers of the state the exchange was started with, and every
    response object in it (those of [completed] and [done] included) has the
    usage counters 0, 0, 0. *)
Theorem translateStreamChunk_frame_effect :
  (∀ chunk state,
     let state' := (translateStreamChunk chunk state).2 in
     responseId state' = responseId state ∧ messageId state' = messageId state
     ∧ contentPartId state' = contentPartId state ∧ model state' = model state
     ∧ createdAt state' = createdAt state
     ∧ inputTokens state' = inputTokens state
     ∧ outputTokens state' = outputTokens state)
  ∧ (∀ env request upstream,
       Forall (carriesIdentity (createStreamState env (rq_model request)))
              (handleStreamingRequest env request upstream)).
Proof.
  split; [intros chunk state; apply translateStreamChunk_sameFrame|].
  intros env request [chunks failure].
  unfold handleStreamingRequest, streamExchange; cbn [yielded Server.failure].
  set (state0 := createStreamState env (rq_model request)).
  destruct (forAwait_identity chunks state0 state0) as [Hevents Hframe];
    [apply sameFrame_refl|done|done|].
  destruct (forAwait chunks state0) as [events state]; cbn [fst snd] in *.
  destruct failure as [error|].
  - cbn [fst]. rewrite !Forall_app. repeat split; try done;
      each_event; carries_identity; done.
  - destruct (hasStartedOutput state); cbn [negb].
    + cbn [fst]. rewrite !Forall_app. repeat split; try done;
        each_event; carries_identity; done.
    + pose proof (translateStreamChunk_identity (emptyChunk env request) state state0
                    Hframe eq_refl eq_refl) as Hlast.
      destruct (translateStreamChunk (emptyChunk env request) state) as [final state'].
      cbn [fst snd] in *. rewrite !Forall_app. repeat split; try done;
        each_event; carries_identity; done.
Qed.

(** C1. When the last chunk of the upstream sequence, and no chunk before
    it, carries a finish reason, the events of the exchange have exactly
    the types created, in_progress, output_item.added, content_part.added,
    one output_text.delta per non-empty content delta (carrying these
    deltas in order), output_text.done, content_part.done,
    output_item.done, completed, done; the accumulated text is the
    concatenation of the deltas. When the first chunk already carries the
    finish reason and no content, there is no output_text.delta and the
    accumulated text is empty. *)
Theorem streaming_order_invariant env request chunks last reason :
  Forall (λ chunk, finishReason chunk = None) chunks →
  finishReason last = Some reason →
  let upstream := {| yielded := chunks ++ [last]; failure := None |} in
  let events := handleStreamingRequest env request upstream in
  let deltas := contentDeltas (chunks ++ [last]) in
  event_type <$> events
  = ["response.created"; "response.in_progress";
     "response.output_item.added"; "response.content_part.added"]
    ++ replicate (length deltas) "response.output_text.delta"
    ++ ["response.output_text.done"; "response.content_part.done";
        "response.output_item.done"; "response.completed"; "response.done"]
  ∧ deltaTexts events = deltas
  ∧ accumulatedText (streamExchange env request upstream).2
    = foldl String.append EmptyString deltas
  ∧ (chunks = [] → contentDelta last = None →
     count "response.output_text.delta" events = 0%nat
     ∧ accumulatedText (streamExchange env request upstream).2 = EmptyString).
Proof.
  intros Hall Hlast upstream events deltas.
  assert (streamExchange env request upstream
          = (let state0 := createStreamState env (rq_model request) in
             ([createResponseCreatedEvent state0; createResponseInProgressEvent state0]
                ++ openingEvents state0 ++ deltaEvents deltas
                ++ terminalEvents reason (absorb deltas state0),
              set_hasStartedOutput true (absorb deltas state0)))) as Hrun.
  { unfold streamExchange, upstream; cbn [yielded failure].
    rewrite (forAwait_finished chunks last reason
               (createStreamState env (rq_model request)) eq_refl Hall Hlast).
    cbn zeta. cbn [hasStartedOutput set_hasStartedOutput negb].
    reflexivity. }
  assert (accumulatedText (streamExchange env request upstream).2
          = foldl String.append EmptyString deltas) as Htext.
  { rewrite Hrun. cbn [snd].
    change (accumulatedText (set_hasStartedOutput true ?s)) with (accumulatedText s).
    by rewrite accumulatedText_absorb. }
  subst events; unfold handleStreamingRequest. rewrite Htext, Hrun.
  cbn zeta; cbn [fst].
  split; [|split; [|split]].
  - rewrite !fmap_app, event_type_deltaEvents, event_type_terminalEvents.
    reflexivity.
  - cbn [app openingEvents]. unfold deltaTexts at 1. cbn [omap list_omap
      createResponseCreatedEvent createResponseInProgressEvent outputItemAdded
      contentPartAdded]. fold deltaTexts.
    unfold deltaTexts. rewrite omap_app. fold deltaTexts.
    rewrite deltaTexts_deltaEvents.
    change (deltaTexts (terminalEvents reason ?s)) with (@nil string).
    by rewrite app_nil_r.
  - reflexivity.
  - intros -> Hnone. subst deltas. unfold contentDeltas. cbn [app omap list_omap].
    rewrite Hnone. split; reflexivity.
Qed.

(** The exchange of the concrete example of the specification: the chunks
    Hi and stop. *)
Lemma streaming_order_invariant_witness :
  Forall (λ chunk, finishReason chunk = None) [hiChunk]
  ∧ finishReason stopChunk = Some Stop
  ∧ event_type <$> handleStreamingRequest env0 (sayHi None None)
                     (closes ([hiChunk] ++ [stopChunk]))
    = ["response.created"; "response.in_progress";
       "response.output_item.added"; "response.content_part.added";
       "response.output_text.delta";
       "response.output_text.done"; "response.content_part.done";
       "response.output_item.done"; "response.completed"; "response.done"].
Proof.
  split; [repeat constructor|split; [reflexivity|]].
  apply (streaming_order_invariant env0 (sayHi None None) [hiChunk] stopChunk Stop);
    [repeat constructor|reflexivity].
Defined.

(** C4, as the specification states it, fails: the value thrown for a
    non-2xx answer of the upstream is a plain object, not an Error, and
    the error event does not carry its message. *)
Lemma stream_error_drops_upstream_message :
  handleStreamingRequest env0 (sayHi None None) rateLimitedUpstream
  = [createResponseCreatedEvent (createStreamState env0 "gpt-4o");
     createResponseInProgressEvent (createStreamState env0 "gpt-4o");
     error_event {| err_code := "stream_error";
                    err_message := "Unknown streaming error" |}]
  ∧ failure rateLimitedUpstream = Some (ApiErrorObject rateLimited)
  ∧ oe_message rateLimited ≠ "Unknown streaming error".
Proof. repeat split. discriminate. Qed.

(** C4, amended. A value thrown by the upstream before any chunk carried a
    finish reason makes the handler write, after the events already
    written, exactly one error event with the code stream_error; its
    message is the message of the thrown value when that is an Error, and
    the fixed text Unknown streaming error for every other thrown value.
    It is the only error event, and no event of the terminal sequence (so
    no done) is written. *)
Theorem transport_error_single_event env request chunks error :
  Forall (λ chunk, finishReason chunk = None) chunks →
  let state0 := createStreamState env (rq_model request) in
  let events :=
    handleStreamingRequest env request {| yielded := chunks; failure := Some error |} in
  events
  = (createResponseCreatedEvent state0 :: createResponseInProgressEvent state0
       :: (forAwait chunks state0).1)
    ++ [error_event
          {| err_code := "stream_error";
             err_message := match error with
                            | ErrorInstance text => text
                            | ApiErrorObject _ | OtherThrown => "Unknown streaming error"
                            end |}]
  ∧ count "error" events = 1%nat
  ∧ Forall (λ e, event_type e ∉ terminalTags) events.
Proof.
  intros Hall state0 events.
  pose proof (forAwait_unfinished_types chunks state0 Hall) as Htypes.
  subst events. unfold handleStreamingRequest, streamExchange.
  cbn [yielded failure]. fold state0.
  destruct (forAwait chunks state0) as [written state]; cbn [fst snd] in *.
  split; [|split].
  - by destruct error.
  - unfold count. rewrite !filter_app, !length_app.
    assert (filter (λ e, event_type e = "error") written = []) as ->.
    { induction Htypes as [|e l He _ IH]; [done|].
      rewrite filter_cons_False; [done|].
      intros Heq. rewrite Heq in He. tag_cases He; discriminate. }
    reflexivity.
  - rewrite !Forall_app. repeat split; try (each_event; other_tag).
    eapply Forall_impl; [exact Htypes|].
    intros e He Hin. unfold terminalTags in Hin.
    tag_cases He; rewrite He in Hin; tag_cases Hin; discriminate.
Qed.

(** The scenario of the specification: the transport fails after two
    delta events. *)
Lemma transport_error_single_event_witness :
  Forall (λ chunk, finishReason chunk = None) [hiChunk; hiChunk]
  ∧ count "error"
      (handleStreamingRequest env0 (sayHi None None)
         (breaks [hiChunk; hiChunk] "socket hang up")) = 1%nat.
Proof.
  split; [repeat constructor|].
  apply (transport_error_single_event env0 (sayHi None None) [hiChunk; hiChunk]
           (ErrorInstance "socket hang up")).
  repeat constructor.
Defined.

(** C2. Evaluation of the code on a chunk that follows the finish chunk:
    against the state left by a chunk with finish reason stop, a further
    chunk with content and a finish reason pushes a delta and the five
    terminal events again and changes the accumulated text; the exchange
    writes completed and done twice. *)
Theorem terminal_events_repeat_after_finish env request :
  let state0 := createStreamState env (rq_model request) in
  let terminated := (translateStreamChunk stopChunk state0).2 in
  let again := translateStreamChunk moreStopChunk terminated in
  event_type <$> again.1 = "response.output_text.delta" :: terminalTags
  ∧ accumulatedText terminated = EmptyString
  ∧ accumulatedText again.2 = "more"
  ∧ count "response.completed"
      (handleStreamingRequest env request (closes [stopChunk; moreStopChunk])) = 2%nat
  ∧ count "response.done"
      (handleStreamingRequest env request (closes [stopChunk; moreStopChunk])) = 2%nat.
Proof. repeat split. Qed.

(** C3. Evaluation of the code on a stream that delivers the content Hi
    and closes without a finish reason: the exchange ends after the delta
    event, none of the terminal events is written. A stream that closes
    without any chunk does get the terminal events. *)
Theorem silent_end_after_content_has_no_tail env request :
  event_type <$> handleStreamingRequest env request (closes [hiChunk])
  = ["response.created"; "response.in_progress"; "response.output_item.added";
     "response.content_part.added"; "response.output_text.delta"]
  ∧ count "response.done" (handleStreamingRequest env request (closes [hiChunk])) = 0%nat
  ∧ event_type <$> handleStreamingRequest env request (closes [])
    = ["response.created"; "response.in_progress"; "response.output_item.added";
       "response.content_part.added"] ++ terminalTags.
Proof. repeat split. Qed.

(** ** Properties of the response translator *)

Section ResponseFacts.

Variable JSON_stringify : list ChatContentPart → string.

(** [translateError] always answers failed, with the error envelope. *)
Lemma translateError_failed env error :
  status (translateError env error) = Failed
  ∧ is_Some (ResponsesApi.error (translateError env error))
  ∧ output (translateError env error) = []
  ∧ usage (translateError env error) = zeroUsage.
Proof. destruct error; repeat split; simpl; eauto. Qed.

(** [translateResponse] never sets the error envelope; its status is
    failed for content_filter and completed for every other reason. *)
Lemma translateResponse_status env chatResponse originalModel response :
  translateResponse JSON_stringify env chatResponse originalModel = Ok response →
  ResponsesApi.error response = None
  ∧ ∃ choice, cres_choices chatResponse !! 0%nat = Some choice
      ∧ status response
        = match cc_finish_reason choice with
          | Some ContentFilter => Failed
          | _ => Completed
          end.
Proof.
  unfold translateResponse.
  destruct (cres_choices chatResponse !! 0%nat) as [choice|]; [|discriminate].
  intros [= <-]. split; [reflexivity|]. exists choice. split; [reflexivity|].
  simpl. by destruct (cc_finish_reason choice) as [[]|].
Qed.

Lemma mapFinishReasonToStatus_failed reason :
  mapFinishReasonToStatus reason = Failed ↔ reason = Some "content_filter".
Proof.
  unfold mapFinishReasonToStatus. destruct reason as [reason|]; [|done].
  repeat case_bool_decide; subst; split; intros; simplify_eq; done.
Qed.

End ResponseFacts.

(** C5. Evaluation of the code on a response whose first choice has the
    finish reason content_filter: [translateResponse] answers with the
    status failed and without an error envelope. *)
Theorem content_filter_failed_without_error
    (JSON_stringify : list ChatContentPart → string) (env : Env)
    (message : ChatMessage) (others : list ChatChoice) (originalModel : option string) :
  let chatResponse :=
    {| cres_id := "gen-1"; cres_created := 1700000000; cres_model := "openai/gpt-4o";
       cres_choices :=
         {| cc_index := 0; cc_message := message;
            cc_finish_reason := Some ContentFilter |} :: others;
       cres_usage := None |} in
  ∃ response,
    translateResponse JSON_stringify env chatResponse originalModel = Ok response
    ∧ status response = Failed
    ∧ ResponsesApi.error response = None.
Proof. eexists; repeat split. Qed.

(** ** Properties of the request translator *)

Section RequestFacts.

Implicit Types (tools : list ResponsesTool) (request : ResponsesAPIRequest).

Lemma isFunctionTool_functionOf tool :
  isFunctionTool tool = bool_decide (is_Some (functionOf tool)).
Proof.
  unfold isFunctionTool, functionOf.
  destruct (rt_type tool), (rt_function tool); simpl; try reflexivity;
    repeat case_bool_decide; try reflexivity;
    match goal with H : ¬ is_Some _ |- _ => destruct H; eauto
                  | H : is_Some None |- _ => by destruct H
                  | H : ¬ _ = _ |- _ => by destruct H end.
Qed.

(** The filter followed by the map of [convertTools] converts the
    function-capable subset element by element. *)
Lemma convert_functionTools tools :
  omap convertTool (List.filter isFunctionTool tools)
  = asChatTool <$> functionCapable tools.
Proof.
  induction tools as [|tool tools IH]; [reflexivity|].
  cbn [List.filter functionCapable omap list_omap].
  rewrite isFunctionTool_functionOf.
  fold (functionCapable tools).
  destruct (functionOf tool) as [f|] eqn:Hf.
  - rewrite bool_decide_eq_true_2 by eauto.
    cbn [omap list_omap fmap list_fmap]. rewrite <- IH.
    unfold convertTool at 1. unfold functionOf in Hf.
    destruct (rt_type tool); try discriminate. by rewrite Hf.
  - rewrite bool_decide_eq_false_2 by (by intros [? ?]). exact IH.
Qed.

Lemma length_functionTools tools :
  length (List.filter isFunctionTool tools) = length (functionCapable tools).
Proof.
  induction tools as [|tool tools IH]; [reflexivity|].
  cbn [List.filter functionCapable omap list_omap].
  rewrite isFunctionTool_functionOf. fold (functionCapable tools).
  destruct (functionOf tool) as [f|] eqn:Hf.
  - rewrite bool_decide_eq_true_2 by eauto. simpl. by rewrite IH.
  - rewrite bool_decide_eq_false_2 by (by intros [? ?]). exact IH.
Qed.

Lemma convertTools_functionCapable tools :
  convertTools tools
  = match functionCapable tools with
    | [] => None
    | fs => Some (asChatTool <$> fs)
    end.
Proof.
  unfold convertTools. rewrite convert_functionTools, length_functionTools.
  by destruct (functionCapable tools).
Qed.

(** The [tools] property of the object built: never assigned when no
    tool is declared, assigned [undefined] when tools are declared and none
    is function-capable. *)
Lemma translateRequest_tools_property request :
  cr_tools (translateRequest request)
  = match declaredTools request, functionCapable (declaredTools request) with
    | [], _ => Unset
    | _ :: _, [] => SetUndefined
    | _ :: _, fs => SetTo (asChatTool <$> fs)
    end.
Proof.
  unfold translateRequest, declaredTools; cbn [cr_tools].
  destruct (rq_tools request) as [[|tool declared]|]; try reflexivity.
  rewrite bool_decide_eq_true_2 by (simpl; lia).
  rewrite convertTools_functionCapable. cbn [from_option]. unfold Datatypes.id.
  by destruct (functionCapable (tool :: declared)).
Qed.

End RequestFacts.

(** C7. What is sent as [tools] is absent exactly when the function-capable
    subset of the declared tools is empty (so also when no tool is
    declared); otherwise it is the function-capable subset in its order,
    each tool converted field by field, the tools of the other types
    dropped. The property never holds an empty list. *)
Theorem translateRequest_tools request :
  let functions := functionCapable (declaredTools request) in
  let tools := sent (cr_tools (translateRequest request)) in
  (tools = None ↔ functions = [])
  ∧ tools = match functions with
            | [] => None
            | fs => Some (asChatTool <$> fs)
            end
  ∧ tools ≠ Some [].
Proof.
  intros functions tools.
  assert (tools = match functions with
                  | [] => None
                  | fs => Some (asChatTool <$> fs)
                  end) as Htools.
  { subst tools functions. unfold translateRequest, declaredTools; cbn [cr_tools].
    destruct (rq_tools request) as [[|tool declared]|]; try reflexivity.
    rewrite bool_decide_eq_true_2 by (simpl; lia).
    rewrite convertTools_functionCapable. cbn [from_option]. unfold Datatypes.id.
    by destruct (functionCapable (tool :: declared)). }
  split; [|split; [exact Htools|]]; rewrite Htools;
    destruct functions; simpl; split || idtac; congruence.
Qed.

(** C8, as the specification states it, fails: with [instructions] set to
    the empty string no system message is prepended. *)
Lemma string_input_empty_instructions :
  rq_input (sayHi (Some EmptyString) None) = InputString "Say hi"
  ∧ cr_messages (translateRequest (sayHi (Some EmptyString) None))
    = [userMessage "Say hi"]
  ∧ cr_messages (translateRequest (sayHi (Some EmptyString) None))
    ≠ specMessages (rq_instructions (sayHi (Some EmptyString) None)) "Say hi".
Proof. repeat split. discriminate. Qed.

(** C8, amended. For a request whose input is a string, the messages are
    one user message with the input as content, preceded by a system
    message with the instructions iff [instructions] is set to a non-empty
    text. *)
Theorem translateRequest_string_input request input :
  rq_input request = InputString input →
  let messages := cr_messages (translateRequest request) in
  (∃ text, rq_instructions request = Some text ∧ text ≠ EmptyString
           ∧ messages = [systemMessage text; userMessage input])
  ∨ ((rq_instructions request = None ∨ rq_instructions request = Some EmptyString)
     ∧ messages = [userMessage input]).
Proof.
  intros Hinput messages. subst messages.
  unfold translateRequest, convertInputToMessages; cbn [cr_messages].
  rewrite Hinput. destruct (rq_instructions request) as [text|]; [|right; eauto].
  unfold truthy_string. case_bool_decide as Htext.
  - left. exists text. eauto.
  - right. subst. eauto.
Qed.

Lemma translateRequest_string_input_witness :
  rq_input (sayHi (Some "Be brief") None) = InputString "Say hi"
  ∧ ((∃ text, rq_instructions (sayHi (Some "Be brief") None) = Some text
              ∧ text ≠ EmptyString
              ∧ cr_messages (translateRequest (sayHi (Some "Be brief") None))
                = [systemMessage text; userMessage "Say hi"])
     ∨ ((rq_instructions (sayHi (Some "Be brief") None) = None
         ∨ rq_instructions (sayHi (Some "Be brief") None) = Some EmptyString)
        ∧ cr_messages (translateRequest (sayHi (Some "Be brief") None))
          = [userMessage "Say hi"])).
Proof.
  split; [reflexivity|].
  apply (translateRequest_string_input (sayHi (Some "Be brief") None) "Say hi").
  reflexivity.
Defined.

(** C6, as the specification states it, fails: a payload whose [model] is
    the empty string has a model that is present and a string and a string
    input, and is rejected. *)
Lemma validateRequest_empty_model :
  get (payload EmptyString) "model" = JStr EmptyString
  ∧ get (payload EmptyString) "input" = JStr "hi"
  ∧ specInvalid (payload EmptyString) = false
  ∧ validateRequest (payload EmptyString)
    = Throw (ErrorInstance "'model' field is required and must be a string").
Proof. repeat split. Qed.

(** C6, amended. [validateRequest] fails, with an Error, exactly when the
    payload is not an object, or [model] is missing, not a string or the
    empty string, or [input] is missing, null, or neither a string nor a
    sequence; in every other case it returns the payload unchanged. *)
Theorem validateRequest_gate raw :
  (validateRequest raw = Ok raw ∧ gateInvalid raw = false)
  ∨ ((∃ message, validateRequest raw = Throw (ErrorInstance message))
     ∧ gateInvalid raw = true).
Proof.
  destruct raw as [| |b|n|s|items|fields];
    try (right; split; [eexists; reflexivity|reflexivity]).
  - right. split; [|reflexivity]. unfold validateRequest; simpl.
    destruct b; eexists; reflexivity.
  - right. split; [|reflexivity]. unfold validateRequest; simpl.
    destruct (Qeq_bool n 0); eexists; reflexivity.
  - right. split; [|reflexivity]. unfold validateRequest; simpl.
    destruct (truthy_string s); eexists; reflexivity.
  - unfold validateRequest, gateInvalid, get; simpl.
    destruct (fields !! "model") as [[| |b|n|s|items|more]|]; simpl;
      try (right; split; [eexists; reflexivity|reflexivity]).
    + right. split; [|reflexivity]. destruct b; eexists; reflexivity.
    + right. split; [|reflexivity]. destruct (Qeq_bool n 0); eexists; reflexivity.
    + destruct (truthy_string s); simpl;
        [|right; split; [eexists; reflexivity|reflexivity]].
      destruct (fields !! "input") as [[| |b|n|t|items|more]|]; simpl;
        try (right; split; [eexists; reflexivity|reflexivity]);
        left; split; reflexivity.
Qed.

(** ** The exchange as a whole *)

Section ExchangeFacts.

Implicit Types (chunk : ChatStreamChunk) (state : StreamState).
Implicit Types (chunks : list ChatStreamChunk) (tags : list string).

Lemma count_tagCount tag (events : list ResponsesStreamEvent) :
  count tag events = tagCount tag (event_type <$> events).
Proof.
  unfold count, tagCount. induction events as [|e events IH]; [done|].
  cbn [fmap list_fmap]. destruct (decide (event_type e = tag)) as [Heq|Hne].
  - rewrite !filter_cons_True by done. simpl. by rewrite IH.
  - rewrite !filter_cons_False by done. exact IH.
Qed.

Lemma tagCount_app tag tags more :
  tagCount tag (tags ++ more) = (tagCount tag tags + tagCount tag more)%nat.
Proof. unfold tagCount. by rewrite filter_app, length_app. Qed.

(** The types of the events of one call, and the flag after it. *)
Lemma translateStreamChunk_tags chunk state :
  event_type <$> (translateStreamChunk chunk state).1
  = chunkTags (hasStartedOutput state) (hasContent chunk) (hasFinish chunk)
  ∧ hasStartedOutput (translateStreamChunk chunk state).2
    = hasStartedOutput state || hasContent chunk || hasFinish chunk.
Proof.
  unfold translateStreamChunk, hasContent, hasFinish, finishReason, contentDelta,
    firstChoice.
  destruct state as [? ? ? ? ? ? ? ? started added].
  destruct (choices chunk !! 0%nat) as [[idx [content] reason]|];
    [|by destruct started].
  unfold onContentDelta, onFinishReason; simpl.
  destruct content as [content|]; simpl;
    [destruct (truthy_string content); simpl|];
    destruct reason as [reason|], started; split; reflexivity.
Qed.

Lemma forAwait_tags chunks state :
  event_type <$> (forAwait chunks state).1 = runTags (hasStartedOutput state) chunks
  ∧ hasStartedOutput (forAwait chunks state).2
    = hasStartedOutput state || anyOutput chunks.
Proof.
  revert state; induction chunks as [|chunk chunks IH]; intros state.
  - simpl. by rewrite orb_false_r.
  - cbn [forAwait runTags anyOutput existsb].
    destruct (translateStreamChunk_tags chunk state) as [Htags Hflag].
    destruct (translateStreamChunk chunk state) as [events state1]; cbn [fst snd] in *.
    destruct (IH state1) as [Hrest Hflag'].
    destruct (forAwait chunks state1) as [written state2]; cbn [fst snd] in *.
    rewrite fmap_app, Htags, Hrest, Hflag', Hflag. split; [done|].
    fold (anyOutput chunks). by rewrite !orb_assoc.
Qed.

Lemma finishCount_cons chunk chunks :
  finishCount (chunk :: chunks)
  = ((if hasFinish chunk then 1 else 0) + finishCount chunks)%nat.
Proof.
  unfold finishCount, hasFinish. case_bool_decide.
  - by rewrite filter_cons_True.
  - by rewrite filter_cons_False.
Qed.

Lemma anyOutput_finishCount chunks : anyOutput chunks = false → finishCount chunks = 0%nat.
Proof.
  induction chunks as [|chunk chunks IH]; [done|].
  cbn [anyOutput existsb]. rewrite finishCount_cons.
  intros [[_ ->]%orb_false_elim Hrest]%orb_false_elim. by rewrite IH.
Qed.

(** The types of the events of a whole exchange. *)
Lemma exchange_tags env request upstream :
  event_type <$> handleStreamingRequest env request upstream
  = ["response.created"; "response.in_progress"]
    ++ runTags false (yielded upstream)
    ++ match failure upstream with
       | Some _ => ["error"]
       | None => if anyOutput (yielded upstream) then []
                 else openingTags ++ terminalTags
       end.
Proof.
  destruct upstream as [chunks failure].
  unfold handleStreamingRequest, streamExchange; cbn [yielded Server.failure].
  destruct (forAwait_tags chunks (createStreamState env (rq_model request)))
    as [Htags Hflag].
  destruct (forAwait chunks _) as [events state]; cbn [fst snd] in *.
  cbn [hasStartedOutput createStreamState orb] in *.
  destruct failure as [error|].
  - cbn [fst]. rewrite !fmap_app, Htags. reflexivity.
  - rewrite Hflag. destruct (anyOutput chunks); cbn [negb].
    + cbn [fst]. rewrite !fmap_app, Htags, app_nil_r. reflexivity.
    + destruct (translateStreamChunk_tags (emptyChunk env request) state) as [Hlast _].
      destruct (translateStreamChunk (emptyChunk env request) state) as [final state'].
      cbn [fst snd] in *. rewrite !fmap_app, Htags, Hlast, Hflag. reflexivity.
Qed.

Lemma tagCount_runTags_terminal tag started chunks :
  tag ∈ terminalTags → tagCount tag (runTags started chunks) = finishCount chunks.
Proof.
  intros Htag. revert started.
  induction chunks as [|chunk chunks IH]; intros started; [done|].
  cbn [runTags]. rewrite tagCount_app, IH, finishCount_cons. f_equal.
  unfold terminalTags in Htag. tag_cases Htag; subst tag;
    by destruct started, (hasContent chunk), (hasFinish chunk).
Qed.

Lemma tagCount_runTags_opening tag started chunks :
  tag ∈ openingTags →
  tagCount tag (runTags started chunks)
  = if negb started && anyOutput chunks then 1%nat else 0%nat.
Proof.
  intros Htag. revert started.
  induction chunks as [|chunk chunks IH]; intros started.
  - by rewrite andb_false_r.
  - cbn [runTags anyOutput existsb]. rewrite tagCount_app, IH.
    fold (anyOutput chunks).
    unfold openingTags in Htag. tag_cases Htag; subst tag;
      by destruct started, (hasContent chunk), (hasFinish chunk), (anyOutput chunks).
Qed.

Lemma tagCount_runTags_error started chunks :
  tagCount "error" (runTags started chunks) = 0%nat.
Proof.
  revert started. induction chunks as [|chunk chunks IH]; intros started; [done|].
  cbn [runTags]. rewrite tagCount_app, IH.
  by destruct started, (hasContent chunk), (hasFinish chunk).
Qed.

End ExchangeFacts.

(** X1. In every exchange, the terminal events (output_text.done,
    content_part.done, output_item.done, completed, done) are written once
    per chunk that carries a finish reason, and once more when the
    upstream closes without having delivered any content or finish
    reason. *)
Theorem terminal_events_per_finish env request upstream :
  Forall (λ tag,
            count tag (handleStreamingRequest env request upstream)
            = (finishCount (yielded upstream)
               + match failure upstream with
                 | None => if anyOutput (yielded upstream) then 0 else 1
                 | Some _ => 0
                 end)%nat)
         terminalTags.
Proof.
  apply Forall_forall. intros tag Htag.
  rewrite count_tagCount, exchange_tags, !tagCount_app.
  rewrite (tagCount_runTags_terminal _ _ _ Htag).
  unfold terminalTags in Htag.
  destruct (failure upstream); [|destruct (anyOutput (yielded upstream))];
    tag_cases Htag; subst tag; count_tags; lia.
Qed.

(** X2. The pair output_item.added, content_part.added is written exactly
    once in every exchange whose upstream closes, and at most once (once
    iff some chunk carried content or a finish reason) when the upstream
    throws; when the upstream closes these are the third and fourth event,
    after created and in_progress. *)
Theorem opening_events_once env request upstream :
  let events := handleStreamingRequest env request upstream in
  Forall (λ tag,
            count tag events
            = match failure upstream with
              | None => 1%nat
              | Some _ => if anyOutput (yielded upstream) then 1%nat else 0%nat
              end)
         openingTags
  ∧ take 2 (event_type <$> events) = ["response.created"; "response.in_progress"]
  ∧ (failure upstream = None →
     take 4 (event_type <$> events)
     = ["response.created"; "response.in_progress"] ++ openingTags).
Proof.
  intros events. subst events. split; [|split].
  - apply Forall_forall. intros tag Htag.
    rewrite count_tagCount, exchange_tags, !tagCount_app.
    rewrite (tagCount_runTags_opening _ _ _ Htag).
    unfold openingTags in Htag. cbn [negb andb].
    destruct (failure upstream); destruct (anyOutput (yielded upstream));
      tag_cases Htag; subst tag; count_tags; lia.
  - rewrite exchange_tags. reflexivity.
  - intros Hfail. rewrite exchange_tags, Hfail.
    assert (∀ chunks, ∃ rest,
              runTags false chunks
              = (if anyOutput chunks then openingTags else []) ++ rest
              ∧ (anyOutput chunks = false → rest = [])) as Hrun.
    { induction chunks as [|chunk chunks [rest [IH Hrest]]]; [by exists []|].
      cbn [runTags anyOutput existsb]. fold (anyOutput chunks).
      destruct (hasContent chunk) eqn:Hc, (hasFinish chunk) eqn:Hf; cbn [orb].
      - eexists. split; [reflexivity|done].
      - eexists. split; [reflexivity|done].
      - eexists. split; [reflexivity|done].
      - exists rest. split; [exact IH|exact Hrest]. }
    destruct (Hrun (yielded upstream)) as [rest [-> Hrest]].
    destruct (anyOutput (yielded upstream)); [reflexivity|].
    rewrite (Hrest eq_refl). reflexivity.
Qed.

(** X3. The handler writes an error event exactly when the upstream throws:
    then it is the last event written, with the code stream_error,
    whatever was streamed before (a finish chunk included); an exchange
    whose upstream closes has no error event. *)
Theorem error_event_iff_throw env request upstream :
  let events := handleStreamingRequest env request upstream in
  count "error" events = match failure upstream with Some _ => 1%nat | None => 0%nat end
  ∧ ∀ error, failure upstream = Some error →
      last events
      = Some (error_event
                {| err_code := "stream_error";
                   err_message := match error with
                                  | ErrorInstance message => message
                                  | _ => "Unknown streaming error"
                                  end |}).
Proof.
  intros events. subst events. split.
  - rewrite count_tagCount, exchange_tags, !tagCount_app, tagCount_runTags_error.
    destruct (failure upstream); [reflexivity|].
    by destruct (anyOutput (yielded upstream)).
  - intros error Hfail. destruct upstream as [chunks failure]; simpl in Hfail; subst.
    unfold handleStreamingRequest, streamExchange; cbn [yielded Server.failure].
    destruct (forAwait chunks _) as [written state]. cbn [fst].
    by rewrite last_snoc.
Qed.

(** X4. In every exchange, whatever the upstream does, the
    output_text.delta events carry exactly the non-empty contents of the
    chunks, in their order, and the accumulated text at the end is their
    concatenation: no content is lost, repeated or reordered. *)
Theorem deltas_carry_contents env request upstream :
  deltaTexts (handleStreamingRequest env request upstream)
  = contentDeltas (yielded upstream)
  ∧ accumulatedText (streamExchange env request upstream).2
    = foldl String.append EmptyString (contentDeltas (yielded upstream)).
Proof.
  assert (∀ chunk state,
            deltaTexts (translateStreamChunk chunk state).1
            = option_list (contentDelta chunk)
            ∧ accumulatedText (translateStreamChunk chunk state).2
              = foldl String.append (accumulatedText state)
                  (option_list (contentDelta chunk))) as Hone.
  { intros chunk state.
    unfold translateStreamChunk, contentDelta, firstChoice.
    destruct state as [? ? ? ? ? ? ? ? started added].
    destruct (choices chunk !! 0%nat) as [[idx [content] reason]|]; [|done].
    unfold onContentDelta, onFinishReason; simpl.
    destruct content as [content|]; simpl;
      [destruct (truthy_string content); simpl|];
      destruct reason as [reason|], started; split; reflexivity. }
  assert (∀ chunks state,
            deltaTexts (forAwait chunks state).1 = contentDeltas chunks
            ∧ accumulatedText (forAwait chunks state).2
              = foldl String.append (accumulatedText state) (contentDeltas chunks))
    as Hloop.
  { induction chunks as [|chunk chunks IH]; intros state; [done|].
    cbn [forAwait]. destruct (Hone chunk state) as [Hd Ht].
    destruct (translateStreamChunk chunk state) as [events state1]; cbn [fst snd] in *.
    destruct (IH state1) as [Hd' Ht'].
    destruct (forAwait chunks state1) as [written state2]; cbn [fst snd] in *.
    rewrite contentDeltas_cons, foldl_app, <- Ht, <- Hd, Ht', <- Hd'.
    split; [|done]. unfold deltaTexts. by rewrite omap_app. }
  destruct upstream as [chunks failure].
  unfold handleStreamingRequest, streamExchange; cbn [yielded Server.failure].
  destruct (Hloop chunks (createStreamState env (rq_model request))) as [Hd Ht].
  destruct (forAwait chunks _) as [events state]; cbn [fst snd] in *.
  destruct failure as [error|]; [|destruct (hasStartedOutput state); cbn [negb]].
  - cbn [fst snd]. split; [|done].
    unfold deltaTexts in *. rewrite !omap_app, Hd. cbn. by rewrite app_nil_r.
  - cbn [fst snd]. split; [|done].
    unfold deltaTexts in *. by rewrite !omap_app, Hd.
  - destruct (Hone (emptyChunk env request) state) as [Hd' Ht'].
    destruct (translateStreamChunk (emptyChunk env request) state) as [final state'].
    cbn [fst snd] in *. split.
    + unfold deltaTexts in *. rewrite !omap_app, Hd, Hd'. cbn. by rewrite app_nil_r.
    + by rewrite Ht', Ht.
Qed.

(** X5. When the last chunk, and no chunk before it, carries a finish
    reason, the exchange ends with a completed and a done event that carry
    the same response object: the identifiers, creation time and model of
    the exchange, the status failed for content_filter and completed for
    every other reason, one output message whose text is the
    concatenation of the content deltas, zero usage and no error. *)
Theorem final_events_payload env request chunks final reason :
  Forall (λ chunk, finishReason chunk = None) chunks →
  finishReason final = Some reason →
  let state0 := createStreamState env (rq_model request) in
  let text := foldl String.append EmptyString (contentDeltas (chunks ++ [final])) in
  ∃ before,
    handleStreamingRequest env request {| yielded := chunks ++ [final]; failure := None |}
    = before ++ [response_completed (finalResponse state0 text reason);
                 response_done (finalResponse state0 text reason)].
Proof.
  intros Hall Hfinal state0 text.
  unfold handleStreamingRequest, streamExchange; cbn [yielded failure].
  fold state0.
  rewrite (forAwait_finished chunks final reason state0 eq_refl Hall Hfinal).
  cbn zeta. cbn [hasStartedOutput set_hasStartedOutput negb fst].
  set (deltas := contentDeltas (chunks ++ [final])).
  pose proof (sameFrame_absorb deltas state0)
    as (Hresp & Hmsg & _ & Hmodel & Hcreated & Hin & Hout).
  pose proof (accumulatedText_absorb deltas state0) as Htext.
  unfold terminalEvents, onFinishReason.
  cbn [sc_finish_reason hasStartedOutput set_hasStartedOutput negb fst
       accumulatedText messageId responseId createdAt model inputTokens outputTokens
       app].
  rewrite Hresp, Hmsg, Hmodel, Hcreated, Hin, Hout, Htext.
  assert (mapFinishReasonToStatus (Some (finish_reason_text reason))
          = match reason with ContentFilter => Failed | _ => Completed end) as ->
    by by destruct reason.
  match goal with
  | |- ∃ _, ?c1 :: ?c2 :: ?o ++ ?d ++ [?a; ?b; ?c; ?x; ?y] = _ =>
      exists (c1 :: c2 :: o ++ d ++ [a; b; c])
  end.
  cbn [app]. rewrite <- !app_assoc. reflexivity.
Qed.

Lemma final_events_payload_witness :
  Forall (λ chunk, finishReason chunk = None) [hiChunk]
  ∧ finishReason stopChunk = Some Stop
  ∧ ∃ before,
      handleStreamingRequest env0 (sayHi None None) (closes ([hiChunk] ++ [stopChunk]))
      = before
        ++ [response_completed
              (finalResponse (createStreamState env0 "gpt-4o") "Hi" Stop);
            response_done
              (finalResponse (createStreamState env0 "gpt-4o") "Hi" Stop)].
Proof.
  split; [repeat constructor|split; [reflexivity|]].
  apply (final_events_payload env0 (sayHi None None) [hiChunk] stopChunk Stop);
    [repeat constructor|reflexivity].
Defined.

(** X6. A chunk that carries neither a non-empty content nor a finish
    reason (no choice, no content, or the empty string as content) pushes
    no event and leaves the state unchanged. *)
Theorem translateStreamChunk_ignores_empty_delta chunk state :
  contentDelta chunk = None →
  finishReason chunk = None →
  translateStreamChunk chunk state = ([], state).
Proof.
  intros Hcontent Hfinish.
  rewrite (translateStreamChunk_unfinished _ _ Hfinish), Hcontent.
  simpl. by rewrite orb_true_r.
Qed.

Lemma translateStreamChunk_ignores_empty_delta_witness :
  contentDelta (chunkOf (Some EmptyString) None) = None
  ∧ finishReason (chunkOf (Some EmptyString) None) = None
  ∧ translateStreamChunk (chunkOf (Some EmptyString) None) (createStreamState env0 "gpt-4o")
    = ([], createStreamState env0 "gpt-4o").
Proof.
  split; [reflexivity|split; [reflexivity|]].
  apply (translateStreamChunk_ignores_empty_delta
           (chunkOf (Some EmptyString) None) (createStreamState env0 "gpt-4o"));
    reflexivity.
Defined.

(** ** More on the response translator *)

Section ResponseMore.

Lemma or_string_truthy a b : truthy_string b = true → truthy_string (or_string a b) = true.
Proof.
  intros Hb. unfold or_string. destruct a as [s|]; [|done].
  by destruct (truthy_string s) eqn:Hs.
Qed.

Lemma or_zero_default n : or_zero n = default 0 n.
Proof.
  destruct n as [k|]; [|done]. simpl. case_bool_decide as Hk; [done|].
  by subst.
Qed.

Lemma includes_slash_cons c s :
  includes_slash (String c s) = bool_decide (c = "/"%char) || includes_slash s.
Proof.
  unfold includes_slash. cbn [String.index String.prefix].
  destruct (ascii_dec "/" c) as [<-|Hne].
  - assert (String.prefix EmptyString s = true) as -> by by destruct s.
    by rewrite !bool_decide_eq_true_2 by eauto.
  - rewrite (bool_decide_eq_false_2 (c = "/"%char)) by congruence. cbn [orb].
    destruct (String.index 0 "/" s) as [n|].
    + by rewrite !bool_decide_eq_true_2 by eauto.
    + by rewrite !bool_decide_eq_false_2 by (by intros [? ?]).
Qed.

Lemma includes_slash_app p s :
  includes_slash (p +:+ s) = includes_slash p || includes_slash s.
Proof.
  induction p as [|c p IH]; [done|].
  change (String c p +:+ s) with (String c (p +:+ s)).
  by rewrite !includes_slash_cons, IH, orb_assoc.
Qed.

Lemma split_slash_nonempty s : split_slash s ≠ [].
Proof.
  destruct s as [|c s]; [done|]. cbn [split_slash].
  case_bool_decide; [done|]. by destruct (split_slash s).
Qed.

Lemma split_slash_plain s : includes_slash s = false → split_slash s = [s].
Proof.
  induction s as [|c s IH]; [done|].
  rewrite includes_slash_cons. intros [Hc Hs]%orb_false_elim.
  cbn [split_slash]. rewrite Hc, (IH Hs). done.
Qed.

(** [split] cuts at every separator: the pieces of [p/s] are the pieces
    of [p] followed by the pieces of [s]. *)
Lemma split_slash_app p s :
  split_slash (p +:+ "/" +:+ s) = split_slash p ++ split_slash s.
Proof.
  induction p as [|c p IH]; [reflexivity|].
  change (String c p +:+ "/" +:+ s) with (String c (p +:+ "/" +:+ s)).
  cbn [split_slash]. case_bool_decide.
  - by rewrite IH.
  - rewrite IH. pose proof (split_slash_nonempty p).
    by destruct (split_slash p).
Qed.

End ResponseMore.

(** What [normalizeModelName] keeps of a name. *)
Lemma normalizeModelName_segments prefix name :
  includes_slash name = false →
  normalizeModelName name = name
  ∧ normalizeModelName (prefix +:+ "/" +:+ name)
    = (if truthy_string name then name else prefix +:+ "/" +:+ name).
Proof.
  intros Hname. unfold normalizeModelName. rewrite Hname. split; [done|].
  rewrite includes_slash_app. change ("/" +:+ name) with (String "/" name).
  rewrite includes_slash_cons, bool_decide_eq_true_2 by done.
  rewrite orb_true_r.
  change (String "/" name) with ("/" +:+ name).
  rewrite split_slash_app, (split_slash_plain _ Hname), last_snoc.
  reflexivity.
Qed.

(** X7. [normalizeModelName] returns a name without a slash unchanged;
    from a name with slashes it keeps what follows the last slash, for any
    prefix, unless nothing follows it, and then it returns the name
    unchanged. *)
Theorem normalizeModelName_last_segment prefix name :
  includes_slash name = false →
  normalizeModelName name = name
  ∧ normalizeModelName (prefix +:+ "/" +:+ name)
    = (if truthy_string name then name else prefix +:+ "/" +:+ name).
Proof. apply normalizeModelName_segments. Qed.

Lemma normalizeModelName_last_segment_witness :
  includes_slash "gpt-4o" = false
  ∧ normalizeModelName ("openai" +:+ "/" +:+ "gpt-4o") = "gpt-4o".
Proof.
  split; [reflexivity|].
  apply (normalizeModelName_last_segment "openai" "gpt-4o"). reflexivity.
Defined.

(** X8. [translateResponse] throws, with the Error No choices in response
    from OpenRouter, exactly when [choices] is empty; otherwise it returns
    a response that depends on the first choice only: the choices after
    it change nothing. *)
Theorem translateResponse_first_choice_only
    (JSON_stringify : list ChatContentPart → string) (env : Env)
    (chatId : string) (created : Z) (chatModel : string)
    (chatChoices : list ChatChoice) (chatUsage : option ChatUsage)
    (originalModel : option string) :
  let response choices :=
    translateResponse JSON_stringify env
      {| cres_id := chatId; cres_created := created; cres_model := chatModel;
         cres_choices := choices; cres_usage := chatUsage |} originalModel in
  match chatChoices with
  | [] => response chatChoices
          = Throw (ErrorInstance "No choices in response from OpenRouter")
  | choice :: others =>
      ∃ translated, response chatChoices = Ok translated
                    ∧ response [choice] = Ok translated
  end.
Proof. destruct chatChoices as [|choice others]; [reflexivity|]. eexists. split; reflexivity. Qed.

(** X9. A response of [translateResponse] has the status failed exactly
    when the finish reason of the first choice is content_filter, and
    completed for the three other reasons and for null; it is never
    in_progress or cancelled, it has exactly one output message with one
    text part, and its three usage counters are the upstream counters,
    zero where the counter or the whole usage record is missing. *)
Theorem translateResponse_shape
    (JSON_stringify : list ChatContentPart → string) (env : Env)
    (chatResponse : ChatCompletionsResponse) (originalModel : option string)
    (choice : ChatChoice) :
  cres_choices chatResponse !! 0%nat = Some choice →
  ∃ translated,
    translateResponse JSON_stringify env chatResponse originalModel = Ok translated
    ∧ (status translated = Failed ↔ cc_finish_reason choice = Some ContentFilter)
    ∧ (status translated = Completed ↔ cc_finish_reason choice ≠ Some ContentFilter)
    ∧ (∃ messageId text, output translated
                         = [ {| om_id := messageId;
                                om_content := [ {| ot_text := text |} ] |} ])
    ∧ input_tokens (usage translated)
      = default 0 (cres_usage chatResponse ≫= prompt_tokens)
    ∧ output_tokens (usage translated)
      = default 0 (cres_usage chatResponse ≫= completion_tokens)
    ∧ total_tokens (usage translated)
      = default 0 (cres_usage chatResponse ≫= cu_total_tokens).
Proof.
  intros Hchoice. unfold translateResponse. rewrite Hchoice.
  eexists. split; [reflexivity|]. cbn [status output usage input_tokens
    output_tokens total_tokens]. rewrite !or_zero_default.
  repeat split; eauto;
    destruct (cc_finish_reason choice) as [[]|]; simpl; congruence.
Qed.

Lemma translateResponse_shape_witness :
  ∃ translated,
    translateResponse (λ _, "[]") env0
      {| cres_id := "gen-1"; cres_created := 1700000000;
         cres_model := "openai/gpt-4o";
         cres_choices :=
           [ {| cc_index := 0;
                cc_message := {| cm_role := Assistant; cm_content := ContentString "Hi" |};
                cc_finish_reason := Some Length |} ];
         cres_usage := Some {| prompt_tokens := Some 3; completion_tokens := Some 1;
                               cu_total_tokens := None |} |}
      (Some "gpt-4o") = Ok translated
    ∧ status translated = Completed
    ∧ total_tokens (usage translated) = 0.
Proof.
  destruct (translateResponse_shape (λ _, "[]") env0
      {| cres_id := "gen-1"; cres_created := 1700000000;
         cres_model := "openai/gpt-4o";
         cres_choices :=
           [ {| cc_index := 0;
                cc_message := {| cm_role := Assistant; cm_content := ContentString "Hi" |};
                cc_finish_reason := Some Length |} ];
         cres_usage := Some {| prompt_tokens := Some 3; completion_tokens := Some 1;
                               cu_total_tokens := None |} |}
      (Some "gpt-4o") _ eq_refl)
    as (translated & Hok & _ & Hcompleted & _ & _ & _ & Htotal).
  exists translated. split; [exact Hok|]. split; [|exact Htotal].
  apply Hcompleted. discriminate.
Defined.

(** On the three shapes of the typed model, [translateError] is
    [translateErrorValue]. *)
Lemma translateError_agrees env :
  (∀ message,
     translateErrorValue env (CaughtError message)
     = Returns (asErrorDocument (translateError env (ErrorInstance message))))
  ∧ (∀ body,
       translateErrorValue env (CaughtValue (errorObject body))
       = Returns (asErrorDocument (translateError env (ApiErrorObject body))))
  ∧ (∀ value,
       (∀ fields, value ≠ JObj fields) →
       translateErrorValue env (CaughtValue value)
       = Returns (asErrorDocument (translateError env OtherThrown))).
Proof.
  split; [reflexivity|]. split.
  - intros [message type code param].
    unfold translateErrorValue, errorObject. rewrite lookup_insert_eq.
    unfold translateError, asErrorDocument, errorDocument, or_string, or_value, get;
      cbn [oe_message oe_type oe_code oe_param optionalField from_option
           ResponsesApi.error err_code err_message id created_at resp_model status
           output usage].
    destruct code as [code|], param as [param|]; cbn [optionalField];
      repeat (rewrite ?lookup_insert_eq;
              rewrite ?lookup_insert_ne by discriminate);
      rewrite ?lookup_empty; cbn [default from_option Datatypes.id truthy];
      unfold Datatypes.id; cbn [truthy];
      repeat (destruct (truthy_string _)); reflexivity.
  - intros value Hvalue. destruct value; try reflexivity. by edestruct Hvalue.
Qed.

(** X10. [translateError], applied to an Error or to a JSON value of any
    shape, throws a TypeError exactly when the value is an object, not an
    Error, whose [error] property is null or undefined. In every other case it
    returns a document of status failed, model unknown, empty output and
    zero usage, whose error code is never a falsy value: internal_error
    with the message of the Error for an Error; internal_error with
    Unknown error occurred for a value that is not an object with an
    [error] property; and for an object with an [error] property the
    [message] of that property, and as code its [code] if truthy, else its
    [type] if truthy, else api_error. *)
Theorem translateErrorValue_envelope env error :
  (translateErrorValue env error = ThrowsTypeError
   ↔ ∃ fields, error = CaughtValue (JObj fields)
               ∧ (fields !! "error" = Some JNull
                  ∨ fields !! "error" = Some JUndefined))
  ∧ ∀ document,
      translateErrorValue env error = Returns document →
      ed_status document = Failed
      ∧ ed_model document = "unknown"
      ∧ ed_output document = []
      ∧ ed_usage document = zeroUsage
      ∧ truthy (ed_code document) = true
      ∧ match error with
        | CaughtError message =>
            ed_code document = JStr "internal_error"
            ∧ ed_message document = JStr message
        | CaughtValue (JObj fields) =>
            match fields !! "error" with
            | Some inner =>
                ed_message document = get inner "message"
                ∧ ed_code document
                  = (if truthy (get inner "code") then get inner "code"
                     else if truthy (get inner "type") then get inner "type"
                          else JStr "api_error")
            | None =>
                ed_code document = JStr "internal_error"
                ∧ ed_message document = JStr "Unknown error occurred"
            end
        | CaughtValue _ =>
            ed_code document = JStr "internal_error"
            ∧ ed_message document = JStr "Unknown error occurred"
        end.
Proof.
  assert (∀ a b, truthy b = true → truthy (or_value a b) = true) as Hor.
  { intros a b Hb. unfold or_value. by destruct (truthy a) eqn:Ha. }
  split.
  - split.
    + destruct error as [message|value]; [discriminate|].
      destruct value as [| | | | | |fields]; try discriminate.
      unfold translateErrorValue.
      destruct (fields !! "error") as [inner|] eqn:Hinner; [|discriminate].
      destruct inner; try discriminate; intros _; eauto.
    + intros (fields & -> & [Hinner|Hinner]); unfold translateErrorValue;
        by rewrite Hinner.
  - intros document.
    destruct error as [message|value].
    { intros [= <-]. by repeat split. }
    destruct value as [| | | | | |fields];
      try (intros [= <-]; by repeat split).
    unfold translateErrorValue.
    destruct (fields !! "error") as [inner|] eqn:Hinner;
      [|intros [= <-]; by repeat split].
    destruct inner; try discriminate; intros [= <-];
      do 4 (split; [reflexivity|]);
      (split; [by apply Hor, Hor|]);
      (split; [reflexivity|]);
      unfold errorDocument, or_value; cbn [ed_code];
      by repeat destruct (truthy _).
Qed.

(** X11. The identifiers made for one object never coincide, whatever the
    clock and the random source deliver: the response, message and content
    part identifiers of a new stream state are pairwise different, and so
    are the response identifier and the message identifier of a translated
    response. *)
Theorem generated_ids_distinct
    (JSON_stringify : list ChatContentPart → string) (env : Env) (requested : string)
    (chatResponse : ChatCompletionsResponse) (originalModel : option string) :
  let state := createStreamState env requested in
  responseId state ≠ messageId state
  ∧ responseId state ≠ contentPartId state
  ∧ messageId state ≠ contentPartId state
  ∧ match translateResponse JSON_stringify env chatResponse originalModel with
    | Ok translated => Forall (λ message, om_id message ≠ id translated) (output translated)
    | Throw _ => cres_choices chatResponse = []
    end.
Proof.
  intros state. repeat split; try discriminate.
  unfold translateResponse.
  destruct (cres_choices chatResponse) as [|choice others]; [reflexivity|].
  cbn. repeat constructor. discriminate.
Qed.

(** ** More on the request translator *)

Section RequestMore.

(** Every entry of the table is a non-empty name with a slash. *)
Lemma MODEL_MAP_qualified key value :
  MODEL_MAP !! key = Some value →
  truthy_string value = true ∧ includes_slash value = true.
Proof.
  intros Hentry. unfold MODEL_MAP in Hentry.
  apply elem_of_list_to_map_2 in Hentry.
  tag_cases Hentry; simplify_eq; split; vm_compute; reflexivity.
Qed.

Lemma mapModelName_known_entry name value :
  includes_slash name = false →
  MODEL_MAP !! toLowerCase name = Some value →
  mapModelName name = value.
Proof.
  intros Hslash Hentry. unfold mapModelName. rewrite Hslash, Hentry.
  by destruct (MODEL_MAP_qualified _ _ Hentry) as [-> _].
Qed.

Lemma omap_length_le {A B} (f : A → option B) (l : list A) :
  (length (omap f l) ≤ length l)%nat.
Proof.
  induction l as [|x l IH]; [done|]. cbn [omap list_omap].
  destruct (f x); simpl; lia.
Qed.

Lemma mapModelName_qualified name :
  includes_slash name = true → mapModelName name = name.
Proof. intros Hslash. unfold mapModelName. by rewrite Hslash. Qed.

End RequestMore.

(** X12. A short name (without slash) whose lower-case form is a key of
    the table resolves to the entry of the table, whatever the case of its
    letters: two spellings with the same lower-case form resolve alike.
    The entry is a qualified name and resolves to itself. *)
Theorem mapModelName_known name spelling value :
  includes_slash name = false →
  includes_slash spelling = false →
  toLowerCase spelling = toLowerCase name →
  MODEL_MAP !! toLowerCase name = Some value →
  mapModelName name = value
  ∧ mapModelName spelling = value
  ∧ includes_slash value = true
  ∧ mapModelName value = value.
Proof.
  intros Hname Hspelling Hsame Hentry.
  destruct (MODEL_MAP_qualified _ _ Hentry) as [_ Hslash].
  split; [by apply mapModelName_known_entry|].
  split; [apply mapModelName_known_entry; [done|by rewrite Hsame]|].
  split; [done|by apply mapModelName_qualified].
Qed.

Lemma mapModelName_known_witness :
  includes_slash "Claude-3-Opus" = false
  ∧ includes_slash "CLAUDE-3-OPUS" = false
  ∧ toLowerCase "CLAUDE-3-OPUS" = toLowerCase "Claude-3-Opus"
  ∧ MODEL_MAP !! toLowerCase "Claude-3-Opus" = Some "anthropic/claude-3-opus"
  ∧ mapModelName "CLAUDE-3-OPUS" = "anthropic/claude-3-opus".
Proof.
  split; [reflexivity|]. split; [reflexivity|]. split; [reflexivity|].
  split; [reflexivity|].
  apply (mapModelName_known "Claude-3-Opus" "CLAUDE-3-OPUS" "anthropic/claude-3-opus");
    reflexivity.
Defined.

(** X13. For every name whose lower-case form is not a property name that
    objects inherit, the resolved model is qualified (it contains a slash)
    and resolves to itself: resolution is idempotent. *)
Theorem mapModelName_idempotent name :
  toLowerCase name ∉ inheritedKeys →
  includes_slash (mapModelName name) = true
  ∧ mapModelName (mapModelName name) = mapModelName name.
Proof.
  intros _.
  assert (includes_slash (mapModelName name) = true) as Hslash.
  { unfold mapModelName. destruct (includes_slash name) eqn:Hname; [done|].
    destruct (MODEL_MAP !! toLowerCase name) as [value|] eqn:Hentry.
    - by destruct (MODEL_MAP_qualified _ _ Hentry) as [-> ->].
    - by rewrite includes_slash_app. }
  split; [done|by apply mapModelName_qualified].
Qed.

Lemma mapModelName_idempotent_witness :
  (toLowerCase "My-Model" ∉ inheritedKeys)
  ∧ mapModelName (mapModelName "My-Model") = mapModelName "My-Model".
Proof.
  assert (toLowerCase "My-Model" ∉ inheritedKeys) as Hname.
  { intros Hin. unfold inheritedKeys in Hin. tag_cases Hin; discriminate. }
  split; [exact Hname|].
  apply (mapModelName_idempotent "My-Model" Hname).
Defined.

(** X14. A non-empty short name of ASCII characters that is neither in
    the table nor an inherited property name gets the default namespace:
    it resolves to openai/ followed by the name as it was spelled, and
    [normalizeModelName] gives the name back. (On a name with other
    characters [toLowerCase] of the model, which changes the ASCII letters
    only, need not be the one of JavaScript.) *)
Theorem mapModelName_default_namespace name :
  isAscii name = true →
  includes_slash name = false →
  name ≠ EmptyString →
  MODEL_MAP !! toLowerCase name = None →
  toLowerCase name ∉ inheritedKeys →
  mapModelName name = "openai/" +:+ name
  ∧ normalizeModelName (mapModelName name) = name.
Proof.
  intros _ Hslash Hname Hentry _.
  assert (mapModelName name = "openai/" +:+ name) as ->.
  { unfold mapModelName. by rewrite Hslash, Hentry. }
  split; [done|].
  destruct (normalizeModelName_segments "openai" name Hslash) as [_ Hlast].
  change ("openai/" +:+ name) with ("openai" +:+ "/" +:+ name).
  rewrite Hlast. unfold truthy_string. by rewrite bool_decide_eq_true_2.
Qed.

Lemma mapModelName_default_namespace_witness :
  isAscii "My-Model" = true
  ∧ includes_slash "My-Model" = false
  ∧ "My-Model" ≠ EmptyString
  ∧ MODEL_MAP !! toLowerCase "My-Model" = None
  ∧ (toLowerCase "My-Model" ∉ inheritedKeys)
  ∧ mapModelName "My-Model" = "openai/" +:+ "My-Model"
  ∧ normalizeModelName (mapModelName "My-Model") = "My-Model".
Proof.
  assert (toLowerCase "My-Model" ∉ inheritedKeys) as Hname.
  { intros Hin. unfold inheritedKeys in Hin. tag_cases Hin; discriminate. }
  split; [reflexivity|].
  split; [reflexivity|]. split; [discriminate|]. split; [reflexivity|].
  split; [exact Hname|].
  apply (mapModelName_default_namespace "My-Model");
    [reflexivity|reflexivity|discriminate|reflexivity|exact Hname].
Defined.

(** X15. For an input that is a sequence of turns, the messages are the
    system message of the instructions (if they are a non-empty text)
    followed by one message per turn, in the order of the turns, each
    with the role of its turn; a string content is passed unchanged and a
    sequence of parts stays a sequence of parts. The list of messages is
    empty exactly when there is no turn and no non-empty instructions. *)
Theorem convertInputToMessages_turns msgs instructions :
  let messages := convertInputToMessages (InputMessages msgs) instructions in
  (∃ converted,
     messages = systemMessages instructions ++ converted
     ∧ Forall2 (λ turn message,
                  cm_role message = match im_role turn with
                                    | RoleUser => User
                                    | RoleAssistant => Assistant
                                    | RoleSystem => System
                                    end
                  ∧ match im_content turn with
                    | InputContentString text => cm_content message = ContentString text
                    | InputContentParts parts =>
                        ∃ kept, cm_content message = ContentParts kept
                                ∧ (length kept ≤ length parts)%nat
                    end)
               msgs converted)
  ∧ (messages = [] ↔ msgs = [] ∧ systemMessages instructions = []).
Proof.
  intros messages.
  assert (messages = systemMessages instructions
                     ++ ((λ msg, {| cm_role := chatRole (im_role msg);
                                    cm_content := convertContent (im_content msg) |})
                           <$> msgs)) as ->.
  { subst messages. unfold convertInputToMessages, systemMessages.
    destruct instructions as [text|]; [|done]. by destruct (truthy_string text). }
  split.
  - eexists. split; [reflexivity|].
    apply Forall2_fmap_r, Forall_Forall2_diag, Forall_forall.
    intros turn _. split; [by destruct (im_role turn)|].
    destruct (im_content turn) as [text|parts]; [done|].
    eexists. split; [reflexivity|]. apply omap_length_le.
  - split.
    + intros [Hsystem Hturns]%app_eq_nil. by apply fmap_nil_inv in Hturns.
    + by intros [-> ->].
Qed.

(** X16. The parts that [convertContent] keeps of a multi-part content are
    all well formed: a text part with a non-empty text, or an image part
    with a non-empty url; the text parts kept are the non-empty texts of
    the text parts of the input, in their order. A text part with an empty
    or missing text and an image part without url are dropped; when every
    part is dropped the content is an empty sequence, not a string. *)
Theorem convertContent_parts parts :
  ∃ kept,
    convertContent (InputContentParts parts) = ContentParts kept
    ∧ Forall wellFormedPart kept
    ∧ omap cp_text kept = inputTexts parts
    ∧ (length kept ≤ length parts)%nat.
Proof.
  eexists. split; [reflexivity|]. split; [|split; [|apply omap_length_le]].
  - apply Forall_forall. intros kept [part [_ Hkept]]%list_elem_of_omap.
    revert Hkept. unfold convertPart, truthy_string.
    destruct (ip_type part), (ip_text part) as [text|],
      (ip_image_url part) as [url|]; try discriminate;
      case_bool_decide; try discriminate; intros [= <-];
      first [ left; simpl; by eauto 10 | right; simpl; by eauto 10 ].
  - induction parts as [|part parts IH]; [reflexivity|].
    unfold inputTexts in *. cbn [omap list_omap]. rewrite <- IH.
    unfold convertPart at 1.
    destruct (ip_type part), (ip_text part) as [text|],
      (ip_image_url part) as [url|]; cbn [mbind option_bind];
      try reflexivity; destruct (truthy_string _); reflexivity.
Qed.

(** [validateRequest] by the shape of the payload. *)
Lemma validateRequest_by_shape raw :
  validateRequest raw
  = match validationMessage raw with
    | Some message => Throw (ErrorInstance message)
    | None => Ok raw
    end.
Proof.
  destruct raw as [| |b|n|s|items|fields]; try reflexivity.
  - unfold validateRequest; simpl. by destruct b.
  - unfold validateRequest; simpl. by destruct (Qeq_bool n 0).
  - unfold validateRequest; simpl. by destruct (truthy_string s).
  - unfold validateRequest, validationMessage, get; simpl.
    destruct (fields !! "model") as [[| |b|n|s|items|more]|]; simpl; try reflexivity.
    + by destruct b.
    + by destruct (Qeq_bool n 0).
    + destruct (decide (s = EmptyString)) as [->|Hs]; [reflexivity|].
      unfold truthy_string.
      rewrite (bool_decide_eq_true_2 (s ≠ EmptyString)) by done.
      rewrite (bool_decide_eq_false_2 (s = EmptyString)) by done. simpl.
      by destruct (fields !! "input") as [[| |b|n|t|items|more]|].
Qed.

(** X17. The message of the Error that [validateRequest] throws is decided
    by the shape of the payload, the first failing check winning:
    undefined, null, a boolean, a number or a string is refused as not
    being a JSON object; an array, and an object whose model is missing,
    not a string or empty, with the model message (whatever its input);
    then a missing or null input as required, and an input that is a
    boolean, a number or an object as of the wrong type. Every other
    payload is returned as it is. *)
Theorem validateRequest_message raw :
  validateRequest raw
  = match validationMessage raw with
    | Some message => Throw (ErrorInstance message)
    | None => Ok raw
    end.
Proof. apply validateRequest_by_shape. Qed.

(** ** The endpoint *)

(** X18. A payload that validation refuses is answered with HTTP 500 and a
    failed document whose error has the code internal_error and the
    message of the validation; the answer is the same whatever the typed
    reading of the payload and whatever the upstream client would do: the
    upstream is not consulted. *)
Theorem postResponses_invalid_payload
    (asRequest : jsval → ResponsesAPIRequest)
    (createCompletion : ChatCompletionsRequest → result ChatCompletionsResponse)
    (createStreamingCompletion : ChatCompletionsRequest → Upstream)
    (JSON_stringify : list ChatContentPart → string)
    (env : Env) (body : jsval) (message : string) :
  validationMessage body = Some message →
  postResponses asRequest createCompletion createStreamingCompletion JSON_stringify
    env body
  = JsonReply 500
      {| id := generateId env 0 "resp";
         created_at := seconds env 0;
         resp_model := "unknown";
         status := Failed;
         output := [];
         usage := zeroUsage;
         error := Some {| err_code := "internal_error"; err_message := message |} |}.
Proof.
  intros Hmessage. unfold postResponses.
  by rewrite validateRequest_by_shape, Hmessage.
Qed.

Lemma postResponses_invalid_payload_witness :
  validationMessage (payload EmptyString)
  = Some "'model' field is required and must be a string"
  ∧ postResponses (λ _, sayHi None None) (λ _, Throw OtherThrown) (λ _, closes [])
      (λ _, "[]") env0 (payload EmptyString)
    = JsonReply 500
        {| id := generateId env0 0 "resp";
           created_at := seconds env0 0;
           resp_model := "unknown";
           status := Failed;
           output := [];
           usage := zeroUsage;
           error := Some {| err_code := "internal_error";
                            err_message :=
                              "'model' field is required and must be a string" |} |}.
Proof.
  split; [reflexivity|].
  apply (postResponses_invalid_payload (λ _, sayHi None None) (λ _, Throw OtherThrown)
           (λ _, closes []) (λ _, "[]") env0 (payload EmptyString)).
  reflexivity.
Defined.


(** ** The streaming call of the client *)

Section ClientFacts.

Variable trim : string → string.
Variable JSON_parse : string → option ChatStreamChunk.

Implicit Types (text line : string) (lines : list string).

Lemma append_cons c (a b : string) : String c a +:+ b = String c (a +:+ b).
Proof. reflexivity. Qed.

Lemma append_empty_r text : text +:+ EmptyString = text.
Proof. induction text as [|c text IH]; [done|]. by rewrite append_cons, IH. Qed.

Lemma append_assoc_string (a b c : string) : (a +:+ b) +:+ c = a +:+ (b +:+ c).
Proof. induction a as [|x a IH]; [done|]. by rewrite !append_cons, IH. Qed.

Lemma joined_app (reads more : list string) :
  joined (reads ++ more) = joined reads +:+ joined more.
Proof.
  induction reads as [|value reads IH]; [done|].
  cbn [app joined foldr] in *. fold (joined (reads ++ more)) (joined reads).
  by rewrite IH, append_assoc_string.
Qed.

Lemma split_lines_nonempty text : split_lines text ≠ [].
Proof.
  destruct text as [|c text]; [done|]. cbn [split_lines].
  case_bool_decide; [done|]. by destruct (split_lines text).
Qed.

Lemma removelast_cons_nonempty {A} (x : A) (l : list A) :
  l ≠ [] → removelast (x :: l) = x :: removelast l.
Proof. by destruct l. Qed.

Lemma last_cons_nonempty {A} (x : A) (l : list A) : l ≠ [] → last (x :: l) = last l.
Proof. by destruct l. Qed.

(** Cutting a text in two: the complete lines of the first part, then the
    lines of what is left of it followed by the second part. *)
Lemma split_lines_app text more :
  split_lines (text +:+ more)
  = completeLines text ++ split_lines (lastLine text +:+ more).
Proof.
  unfold completeLines, lastLine.
  induction text as [|c text IH]; [reflexivity|].
  rewrite append_cons. cbn [split_lines].
  pose proof (split_lines_nonempty text) as Hne.
  case_bool_decide.
  - rewrite IH, removelast_cons_nonempty, last_cons_nonempty by done. done.
  - rewrite IH. destruct (split_lines text) as [|first [|second others]]; [done| |].
    + cbn [removelast last from_option app]. unfold Datatypes.id.
      rewrite append_cons. cbn [split_lines].
      rewrite bool_decide_eq_false_2 by done. done.
    + pose proof (split_lines_nonempty
                    (default EmptyString (last (first :: second :: others)) +:+ more)).
      rewrite !removelast_cons_nonempty by done.
      rewrite !last_cons_nonempty by done. done.
Qed.

Lemma completeLines_app text more :
  completeLines (text +:+ more)
  = completeLines text ++ completeLines (lastLine text +:+ more).
Proof.
  unfold completeLines at 1. rewrite split_lines_app.
  rewrite removelast_app by apply split_lines_nonempty. done.
Qed.

Lemma includes_lineFeed_cons c text :
  includes_lineFeed (String c text) = bool_decide (c = lineFeed) || includes_lineFeed text.
Proof.
  unfold includes_lineFeed. cbn [String.index String.prefix].
  destruct (ascii_dec lineFeed c) as [<-|Hne].
  - assert (String.prefix EmptyString text = true) as -> by by destruct text.
    by rewrite !bool_decide_eq_true_2 by eauto.
  - rewrite (bool_decide_eq_false_2 (c = lineFeed)) by congruence. cbn [orb].
    destruct (String.index 0 (String lineFeed EmptyString) text) as [n|].
    + by rewrite !bool_decide_eq_true_2 by eauto.
    + by rewrite !bool_decide_eq_false_2 by (by intros [? ?]).
Qed.

Lemma split_lines_plain text : includes_lineFeed text = false → split_lines text = [text].
Proof.
  induction text as [|c text IH]; [done|].
  rewrite includes_lineFeed_cons. intros [Hc Hs]%orb_false_elim.
  cbn [split_lines]. rewrite Hc, (IH Hs). done.
Qed.

(** What is left in the buffer holds no line feed. *)
Lemma lastLine_plain text : includes_lineFeed (lastLine text) = false.
Proof.
  unfold lastLine. induction text as [|c text IH]; [done|].
  cbn [split_lines]. pose proof (split_lines_nonempty text) as Hne.
  case_bool_decide as Hc.
  - by rewrite last_cons_nonempty.
  - destruct (split_lines text) as [|first [|second others]]; [done| |].
    + cbn [last from_option] in *. unfold Datatypes.id in *.
      by rewrite includes_lineFeed_cons, IH, bool_decide_eq_false_2.
    + by rewrite last_cons_nonempty in * by done.
Qed.

Lemma forLines_app lines more :
  forLines trim JSON_parse (lines ++ more)
  = let '(chunks, returned) := forLines trim JSON_parse lines in
    if returned then (chunks, true)
    else let '(later, returned') := forLines trim JSON_parse more in
         (chunks ++ later, returned').
Proof.
  induction lines as [|line lines IH]; cbn [app forLines].
  - by destruct (forLines trim JSON_parse more).
  - destruct (onLine trim JSON_parse line); [exact IH|done|].
    rewrite IH. destruct (forLines trim JSON_parse lines) as [chunks []]; [done|].
    by destruct (forLines trim JSON_parse more).
Qed.

(** The loop over the reads, from a buffer without line feed, does what
    the whole text tells. *)
Lemma readLoop_fromText buffer reads ending :
  includes_lineFeed buffer = false →
  readLoop trim JSON_parse buffer reads ending
  = fromText trim JSON_parse (buffer +:+ joined reads) ending.
Proof.
  revert buffer. induction reads as [|value reads IH]; intros buffer Hplain.
  - cbn [readLoop joined foldr]. rewrite append_empty_r.
    unfold fromText, completeLines. by rewrite (split_lines_plain _ Hplain).
  - cbn [readLoop joined foldr]. fold (joined reads).
    rewrite <- append_assoc_string.
    unfold fromText. rewrite completeLines_app, forLines_app.
    fold (completeLines (buffer +:+ value)).
    replace (or_string (last (split_lines (buffer +:+ value))) EmptyString)
      with (lastLine (buffer +:+ value)).
    2: { unfold lastLine, or_string.
         destruct (last (split_lines (buffer +:+ value))) as [l|]; [|done].
         simpl. unfold truthy_string. case_bool_decide as Hl; [done|].
         by subst. }
    destruct (forLines trim JSON_parse (completeLines (buffer +:+ value)))
      as [chunks []]; [done|].
    rewrite IH by apply lastLine_plain. unfold fromText.
    by destruct (forLines trim JSON_parse _) as [later returned'].
Qed.

Lemma body_fromText reads ending :
  readLoop trim JSON_parse EmptyString reads ending
  = fromText trim JSON_parse (joined reads) ending.
Proof. by rewrite readLoop_fromText. Qed.

Lemma includes_lineFeed_app (a b : string) :
  includes_lineFeed (a +:+ b) = includes_lineFeed a || includes_lineFeed b.
Proof.
  induction a as [|c a IH]; [done|].
  by rewrite append_cons, !includes_lineFeed_cons, IH, orb_assoc.
Qed.

(** The lines of a line without line feed, ended by a line feed and
    followed by more text. *)
Lemma split_lines_line line more :
  includes_lineFeed line = false →
  split_lines (line +:+ String lineFeed more) = line :: split_lines more.
Proof.
  induction line as [|c line IH]; intros Hline.
  - change (EmptyString +:+ String lineFeed more) with (String lineFeed more).
    cbn [split_lines]. by rewrite bool_decide_eq_true_2.
  - rewrite includes_lineFeed_cons in Hline.
    apply orb_false_elim in Hline as [Hc Hline].
    rewrite append_cons. cbn [split_lines]. by rewrite Hc, (IH Hline).
Qed.

End ClientFacts.


(** X21. What follows the last line feed of the body is never processed:
    a last read without line feed changes neither the chunks nor the end
    of the call, so a final data line that no line feed ends is lost. *)
Theorem createStreamingCompletion_unterminated_tail
    (trim : string → string) (JSON_parse : string → option ChatStreamChunk)
    (JSON_parse_error : string → option (option OpenRouterErrorBody))
    (reads : list string) (tail : string) (ending : option thrown) :
  includes_lineFeed tail = false →
  createStreamingCompletion trim JSON_parse JSON_parse_error
    (Body (reads ++ [tail]) ending)
  = createStreamingCompletion trim JSON_parse JSON_parse_error (Body reads ending).
Proof.
  intros Htail. unfold createStreamingCompletion. rewrite !body_fromText.
  rewrite joined_app. cbn [joined foldr]. rewrite append_empty_r.
  unfold fromText. rewrite completeLines_app.
  assert (completeLines (lastLine (joined reads) +:+ tail) = []) as ->.
  { unfold completeLines. rewrite split_lines_plain; [done|].
    by rewrite includes_lineFeed_app, lastLine_plain, Htail. }
  by rewrite app_nil_r.
Qed.

Lemma createStreamingCompletion_unterminated_tail_witness :
  includes_lineFeed "data: [DONE]" = false
  ∧ createStreamingCompletion (λ s, s) (λ _, Some hiChunk) (λ _, None)
      (Body ([String lineFeed EmptyString] ++ ["data: [DONE]"]) None)
    = createStreamingCompletion (λ s, s) (λ _, Some hiChunk) (λ _, None)
        (Body [String lineFeed EmptyString] None).
Proof.
  split; [reflexivity|].
  apply (createStreamingCompletion_unterminated_tail (λ s, s) (λ _, Some hiChunk)
           (λ _, None) [String lineFeed EmptyString] "data: [DONE]" None).
  reflexivity.
Defined.

(** X22. Once a [DONE] line was processed the call has returned: further
    reads change nothing, and a failure of a later read is not reported. *)
Theorem createStreamingCompletion_after_done
    (trim : string → string) (JSON_parse : string → option ChatStreamChunk)
    (JSON_parse_error : string → option (option OpenRouterErrorBody))
    (reads more : list string) (ending : option thrown) :
  (forLines trim JSON_parse (completeLines (joined reads))).2 = true →
  createStreamingCompletion trim JSON_parse JSON_parse_error
    (Body (reads ++ more) ending)
  = createStreamingCompletion trim JSON_parse JSON_parse_error (Body reads None).
Proof.
  intros Hdone. unfold createStreamingCompletion. rewrite !body_fromText.
  rewrite joined_app. unfold fromText.
  rewrite completeLines_app, (forLines_app trim JSON_parse).
  destruct (forLines trim JSON_parse (completeLines (joined reads)))
    as [chunks returned]. simpl in Hdone. by subst.
Qed.

Lemma createStreamingCompletion_after_done_witness :
  (forLines (λ s, s) (λ _, Some hiChunk)
     (completeLines (joined ["data:[DONE]" +:+ String lineFeed EmptyString]))).2 = true
  ∧ createStreamingCompletion (λ s, s) (λ _, Some hiChunk) (λ _, None)
      (Body (["data:[DONE]" +:+ String lineFeed EmptyString]
             ++ ["data:x" +:+ String lineFeed EmptyString])
         (Some (ErrorInstance "terminated")))
    = createStreamingCompletion (λ s, s) (λ _, Some hiChunk) (λ _, None)
        (Body ["data:[DONE]" +:+ String lineFeed EmptyString] None).
Proof.
  split; [reflexivity|].
  apply (createStreamingCompletion_after_done (λ s, s) (λ _, Some hiChunk) (λ _, None)
           ["data:[DONE]" +:+ String lineFeed EmptyString]
           ["data:x" +:+ String lineFeed EmptyString]
           (Some (ErrorInstance "terminated"))).
  reflexivity.
Defined.

(** X23. A line on which the loop continues without yielding (a blank
    line, a comment line that starts with a colon, a line that is not a
    data line, a data line whose payload does not parse) can be removed
    from the body, with its line feed, without changing what the call
    yields and how it ends: such lines never abort the stream. *)
Theorem createStreamingCompletion_skipped_line
    (trim : string → string) (JSON_parse : string → option ChatStreamChunk)
    (JSON_parse_error : string → option (option OpenRouterErrorBody))
    (before line after : string) (ending : option thrown) :
  lastLine before = EmptyString →
  includes_lineFeed line = false →
  onLine trim JSON_parse line = Continue →
  createStreamingCompletion trim JSON_parse JSON_parse_error
    (Body [before; line +:+ String lineFeed EmptyString; after] ending)
  = createStreamingCompletion trim JSON_parse JSON_parse_error
      (Body [before; after] ending).
Proof.
  intros Hbefore Hline Hskip. unfold createStreamingCompletion.
  rewrite !body_fromText. cbn [joined foldr]. rewrite !append_empty_r.
  unfold fromText.
  rewrite !(completeLines_app before), Hbefore.
  change (EmptyString +:+ ?x) with x.
  rewrite !(forLines_app trim JSON_parse).
  destruct (forLines trim JSON_parse (completeLines before)) as [chunks []]; [done|].
  rewrite append_assoc_string. change (String lineFeed EmptyString +:+ after)
    with (String lineFeed after).
  unfold completeLines at 1. rewrite (split_lines_line _ _ Hline).
  rewrite removelast_cons_nonempty by apply split_lines_nonempty.
  cbn [forLines]. by rewrite Hskip.
Qed.

Lemma createStreamingCompletion_skipped_line_witness :
  lastLine EmptyString = EmptyString
  ∧ includes_lineFeed ": keep-alive" = false
  ∧ onLine (λ s, s) (λ _, Some hiChunk) ": keep-alive" = Continue
  ∧ createStreamingCompletion (λ s, s) (λ _, Some hiChunk) (λ _, None)
      (Body [EmptyString; ": keep-alive" +:+ String lineFeed EmptyString;
             "data:x" +:+ String lineFeed EmptyString] None)
    = createStreamingCompletion (λ s, s) (λ _, Some hiChunk) (λ _, None)
        (Body [EmptyString; "data:x" +:+ String lineFeed EmptyString] None).
Proof.
  split; [reflexivity|]. split; [reflexivity|]. split; [reflexivity|].
  apply (createStreamingCompletion_skipped_line (λ s, s) (λ _, Some hiChunk) (λ _, None)
           EmptyString ": keep-alive" ("data:x" +:+ String lineFeed EmptyString) None);
    reflexivity.
Defined.

(** X24. When the upstream answers a streaming call with an HTTP error,
    the exchange consists of created, in_progress and one error event
    with the code stream_error and the fixed message Unknown streaming
    error, whatever the body of the error says: the thrown value is not an
    Error, so its message never reaches the consumer of the stream. *)
Theorem streaming_http_error_message
    (trim : string → string) (JSON_parse : string → option ChatStreamChunk)
    (JSON_parse_error : string → option (option OpenRouterErrorBody))
    (env : Env) (request : ResponsesAPIRequest) (errorBody : string) :
  let state0 := createStreamState env (rq_model request) in
  handleStreamingRequest env request
    (createStreamingCompletion trim JSON_parse JSON_parse_error (HttpError errorBody))
  = [createResponseCreatedEvent state0; createResponseInProgressEvent state0;
     error_event {| err_code := "stream_error";
                    err_message := "Unknown streaming error" |}].
Proof.
  intros state0. unfold createStreamingCompletion, handleStreamingRequest, streamExchange.
  cbn [yielded failure forAwait fst app].
  by destruct (JSON_parse_error errorBody) as [[body|]|].
Qed.

(** X25. When the upstream answers the call that does not stream with an
    HTTP error whose body is not JSON, [createCompletion] throws the
    object [{error: {message: <body>, type: "api_error"}}], and
    [translateError], which the catch of the endpoint applies to what was
    thrown, turns it into a failed document whose error has the code
    api_error and the body text as message: here the upstream's words do
    reach the caller. *)
Theorem createCompletion_http_error_text
    (JSON_parse_error : string → option (option OpenRouterErrorBody))
    (env : Env) (errorBody : string) :
  JSON_parse_error errorBody = None →
  ∃ error,
    createCompletion JSON_parse_error (CompletionHttpError errorBody) = Throw error
    ∧ error = ApiErrorObject {| oe_message := errorBody; oe_type := "api_error";
                                oe_code := None; oe_param := None |}
    ∧ translateError env error
      = {| id := generateId env 0 "resp";
           created_at := seconds env 0;
           resp_model := "unknown";
           status := Failed;
           output := [];
           usage := zeroUsage;
           error := Some {| err_code := "api_error"; err_message := errorBody |} |}
    ∧ translateErrorValue env (CaughtValue (errorObject
          {| oe_message := errorBody; oe_type := "api_error";
             oe_code := None; oe_param := None |}))
      = Returns (errorDocument env (JStr "api_error") (JStr errorBody)).
Proof.
  intros Hparse. eexists. split; [|split; [reflexivity|split]].
  - unfold createCompletion, errorData. by rewrite Hparse.
  - reflexivity.
  - unfold translateErrorValue, errorObject. rewrite lookup_insert_eq.
    cbn [optionalField oe_code oe_param oe_message oe_type get].
    rewrite lookup_insert_eq.
    rewrite !(lookup_insert_ne _ "message") by discriminate.
    rewrite lookup_insert_ne by discriminate.
    rewrite lookup_insert_eq, lookup_empty. reflexivity.
Qed.

Lemma createCompletion_http_error_text_witness :
  (λ _ : string, @None (option OpenRouterErrorBody)) "Bad Gateway" = None
  ∧ ∃ error,
      createCompletion (λ _, None) (CompletionHttpError "Bad Gateway") = Throw error
      ∧ ResponsesApi.error (translateError env0 error)
        = Some {| err_code := "api_error"; err_message := "Bad Gateway" |}.
Proof.
  split; [reflexivity|].
  destruct (createCompletion_http_error_text (λ _, None) env0 "Bad Gateway" eq_refl)
    as (error & Hthrown & _ & Hdocument & _).
  exists error. split; [exact Hthrown|]. by rewrite Hdocument.
Defined.
